(** * cordova-res: resource catalog, validators, source resolution, generation

    A shallow embedding of [src/resources.ts] (catalog and validators) and
    [src/image.ts] (source resolver and image generator), with the
    collaborators of the pipeline (file system, image codec, diagnostic
    stream) made explicit, and of the Platform Runner as the specification
    describes it. *)

From Stdlib Require Import ZArith Lia.
From stdpp Require Import base option list strings pretty gmap.

Local Open Scope string_scope.
Local Open Scope list_scope.
Local Open Scope Z_scope.

(** ** Enumerations of [resources.ts] and [platform.ts] *)

Inductive Platform := ANDROID | IOS.

Inductive ResourceType := ICON | SPLASH.

Inductive Orientation := LANDSCAPE | PORTRAIT.

Inductive Density :=
| LDPI | MDPI | HDPI | XHDPI | XXHDPI | XXXHDPI
| LAND_LDPI | LAND_MDPI | LAND_HDPI | LAND_XHDPI | LAND_XXHDPI | LAND_XXXHDPI
| PORT_LDPI | PORT_MDPI | PORT_HDPI | PORT_XHDPI | PORT_XXHDPI | PORT_XXXHDPI.

Inductive ResourceKey := SRC | NAME | WIDTH | HEIGHT | DENSITY | ORIENTATION.

Inductive ValidationErrorCode := BAD_IMAGE_FORMAT | BAD_IMAGE_SIZE.

(** The string value of a [ResourceType] member. *)
Definition ResourceType_value (t : ResourceType) : string :=
  match t with ICON => "icon" | SPLASH => "splash" end.

Definition RESOURCE_TYPES : list ResourceType := [ICON; SPLASH].

(** ** Image metadata, as read from a decoded image

    [format], [width] and [height] are optional in the codec's metadata
    object; [None] is JavaScript's [undefined]. *)

Record Metadata := mkMetadata {
  format : option string;
  width : option Z;
  height : option Z
}.

(** ** Errors

    The details object handed to [new ValidationError(message, details)];
    the two shapes differ by [code]. *)

Inductive ValidationErrorDetails :=
| BadFormat (source : string) (type : ResourceType)
            (format : option string) (requiredFormat : string)
| BadSize (source : string) (type : ResourceType)
          (width height : option Z) (requiredWidth requiredHeight : Z).

Definition code (d : ValidationErrorDetails) : ValidationErrorCode :=
  match d with
  | BadFormat _ _ _ _ => BAD_IMAGE_FORMAT
  | BadSize _ _ _ _ _ _ => BAD_IMAGE_SIZE
  end.

Record ValidationError := mkValidationError {
  message : string;
  details : ValidationErrorDetails
}.

(** What a [throw] (or a rejected promise) can carry in this program. *)
Inductive Exn :=
| EValidation (e : ValidationError)
| EResolveSourceImage (message : string) (errors : list ValidationError)
| EOther (message : string).

(** [e instanceof ValidationError], as used by the type guard of the filter
    in [resolveSourceImage]. *)
Definition asValidationError (e : Exn) : option ValidationError :=
  match e with EValidation v => Some v | _ => None end.

(** ** Template-literal rendering *)

(** The double-quote character of the messages. *)
Definition dquote : string := String (Ascii.ascii_of_nat 34) EmptyString.

Definition show_string (o : option string) : string :=
  match o with Some s => s | None => "undefined" end.

Definition show_number (o : option Z) : string :=
  match o with Some n => pretty n | None => "undefined" end.

(** ** Validators ([RESOURCE_VALIDATORS])

    Each validator awaits [pipeline.metadata()] and then runs the checks
    below on the metadata; the checks themselves touch nothing else.
    [falsy n] is JavaScript's [!n] on an optional integer. *)

Definition falsy (n : option Z) : bool :=
  match n with None => true | Some v => v =? 0 end.

Definition lt_required (n : option Z) (required : Z) : bool :=
  match n with None => false | Some v => v <? required end.

Definition format_differs (f : option string) (required : string) : bool :=
  match f with None => true | Some s => negb (String.eqb s required) end.

Definition check_ICON (source : string) (metadata : Metadata) : Exn + unit :=
  let '(mkMetadata format width height) := metadata in
  let requiredFormat := "png" in
  let requiredWidth := 1024 in
  let requiredHeight := 1024 in
  if format_differs format requiredFormat then
    inl (EValidation (mkValidationError
      ("Icon source must be " +:+ requiredFormat +:+ " format (image format is " +:+ dquote
         +:+ show_string format +:+ dquote +:+ ").")
      (BadFormat source ICON format requiredFormat)))
  else if falsy width || falsy height
          || lt_required width requiredWidth || lt_required height requiredHeight then
    inl (EValidation (mkValidationError
      ("Icon source does not meet minimum size requirements: "
         +:+ pretty requiredWidth +:+ "x" +:+ pretty requiredHeight
         +:+ " (image is " +:+ show_number width +:+ "x" +:+ show_number height +:+ ").")
      (BadSize source ICON width height requiredWidth requiredHeight)))
  else inr tt.

Definition check_SPLASH (source : string) (metadata : Metadata) : Exn + unit :=
  let '(mkMetadata format width height) := metadata in
  let requiredFormat := "png" in
  let requiredWidth := 2732 in
  let requiredHeight := 2732 in
  if format_differs format requiredFormat then
    inl (EValidation (mkValidationError
      ("Splash Screen source must be " +:+ requiredFormat +:+ " format (image format is " +:+ dquote
         +:+ show_string format +:+ dquote +:+ ").")
      (BadFormat source SPLASH format requiredFormat)))
  else if falsy width || falsy height
          || lt_required width requiredWidth || lt_required height requiredHeight then
    inl (EValidation (mkValidationError
      ("Splash Screen source does not meet minimum size requirements: "
         +:+ pretty requiredWidth +:+ "x" +:+ pretty requiredHeight
         +:+ " (image is " +:+ show_number width +:+ "x" +:+ show_number height +:+ ").")
      (BadSize source SPLASH width height requiredWidth requiredHeight)))
  else inr tt.

(** The checks of [RESOURCE_VALIDATORS[type]]. *)
Definition check (type : ResourceType) : string -> Metadata -> Exn + unit :=
  match type with ICON => check_ICON | SPLASH => check_SPLASH end.

(** The thresholds bound locally in each validator ([requiredWidth],
    [requiredHeight]), tabulated per type. *)
Definition requiredWidth (type : ResourceType) : Z :=
  match type with ICON => 1024 | SPLASH => 2732 end.

Definition requiredHeight (type : ResourceType) : Z :=
  match type with ICON => 1024 | SPLASH => 2732 end.

(** The wording shared by the two validators, by resource type. *)
Definition type_label (type : ResourceType) : string :=
  match type with ICON => "Icon" | SPLASH => "Splash Screen" end.

Definition bad_format_message (type : ResourceType) (format : option string) : string :=
  type_label type +:+ " source must be png format (image format is " +:+ dquote
    +:+ show_string format +:+ dquote +:+ ").".

Definition bad_size_message (type : ResourceType) (width height : option Z) : string :=
  type_label type +:+ " source does not meet minimum size requirements: "
    +:+ pretty (requiredWidth type) +:+ "x" +:+ pretty (requiredHeight type)
    +:+ " (image is " +:+ show_number width +:+ "x" +:+ show_number height +:+ ").".

(** A result that is a [ValidationError] with the given code. *)
Definition rejects_with (r : Exn + unit) (c : ValidationErrorCode) : Prop :=
  exists v, r = inl (EValidation v) /\ code (details v) = c.

(** ** Resource catalog ([RESOURCES]) *)

Record ResourcesImageConfig := mkImage {
  name : string;
  img_width : Z;
  img_height : Z;
  density : option Density;
  orientation : option Orientation
}.

Record ResourcesTypeConfig := mkTypeConfig {
  images : list ResourcesImageConfig;
  nodeName : string;
  nodeAttributes : list ResourceKey
}.

Definition ANDROID_ICON : ResourcesTypeConfig := {|
  images := [
    mkImage "drawable-ldpi-icon.png" 36 36 (Some LDPI) None;
    mkImage "drawable-mdpi-icon.png" 48 48 (Some MDPI) None;
    mkImage "drawable-hdpi-icon.png" 72 72 (Some HDPI) None;
    mkImage "drawable-xhdpi-icon.png" 96 96 (Some XHDPI) None;
    mkImage "drawable-xxhdpi-icon.png" 144 144 (Some XXHDPI) None;
    mkImage "drawable-xxxhdpi-icon.png" 192 192 (Some XXXHDPI) None ];
  nodeName := "icon";
  nodeAttributes := [SRC; DENSITY]
|}.

Definition ANDROID_SPLASH : ResourcesTypeConfig := {|
  images := [
    mkImage "drawable-land-ldpi-screen.png" 320 240 (Some LAND_LDPI) (Some LANDSCAPE);
    mkImage "drawable-land-mdpi-screen.png" 480 320 (Some LAND_MDPI) (Some LANDSCAPE);
    mkImage "drawable-land-hdpi-screen.png" 800 480 (Some LAND_HDPI) (Some LANDSCAPE);
    mkImage "drawable-land-xhdpi-screen.png" 1280 720 (Some LAND_XHDPI) (Some LANDSCAPE);
    mkImage "drawable-land-xxhdpi-screen.png" 1600 960 (Some LAND_XXHDPI) (Some LANDSCAPE);
    mkImage "drawable-land-xxxhdpi-screen.png" 1920 1280 (Some LAND_XXXHDPI) (Some LANDSCAPE);
    mkImage "drawable-port-ldpi-screen.png" 240 320 (Some PORT_LDPI) (Some PORTRAIT);
    mkImage "drawable-port-mdpi-screen.png" 320 480 (Some PORT_MDPI) (Some PORTRAIT);
    mkImage "drawable-port-hdpi-screen.png" 480 800 (Some PORT_HDPI) (Some PORTRAIT);
    mkImage "drawable-port-xhdpi-screen.png" 720 1280 (Some PORT_XHDPI) (Some PORTRAIT);
    mkImage "drawable-port-xxhdpi-screen.png" 960 1600 (Some PORT_XXHDPI) (Some PORTRAIT);
    mkImage "drawable-port-xxxhdpi-screen.png" 1280 1920 (Some PORT_XXXHDPI) (Some PORTRAIT) ];
  nodeName := "splash";
  nodeAttributes := [SRC; DENSITY]
|}.

Definition IOS_ICON : ResourcesTypeConfig := {|
  images := [
    mkImage "icon.png" 57 57 None None;
    mkImage "icon@2x.png" 114 114 None None;
    mkImage "icon-40.png" 40 40 None None;
    mkImage "icon-40@2x.png" 80 80 None None;
    mkImage "icon-40@3x.png" 120 120 None None;
    mkImage "icon-50.png" 50 50 None None;
    mkImage "icon-50@2x.png" 100 100 None None;
    mkImage "icon-60.png" 60 60 None None;
    mkImage "icon-60@2x.png" 120 120 None None;
    mkImage "icon-60@3x.png" 180 180 None None;
    mkImage "icon-72.png" 72 72 None None;
    mkImage "icon-72@2x.png" 144 144 None None;
    mkImage "icon-76.png" 76 76 None None;
    mkImage "icon-76@2x.png" 152 152 None None;
    mkImage "icon-83.5@2x.png" 167 167 None None;
    mkImage "icon-small.png" 29 29 None None;
    mkImage "icon-small@2x.png" 58 58 None None;
    mkImage "icon-small@3x.png" 87 87 None None;
    mkImage "icon-1024.png" 1024 1024 None None ];
  nodeName := "icon";
  nodeAttributes := [SRC; WIDTH; HEIGHT]
|}.

Definition IOS_SPLASH : ResourcesTypeConfig := {|
  images := [
    mkImage "Default-568h@2x~iphone.png" 640 1136 None (Some PORTRAIT);
    mkImage "Default-667h.png" 750 1334 None (Some PORTRAIT);
    mkImage "Default-736h.png" 1242 2208 None (Some PORTRAIT);
    mkImage "Default-2436h.png" 1125 2436 None (Some PORTRAIT);
    mkImage "Default-Landscape-736h.png" 2208 1242 None (Some LANDSCAPE);
    mkImage "Default-Landscape-2436h.png" 2436 1125 None (Some LANDSCAPE);
    mkImage "Default-Landscape@2x~ipad.png" 2048 1536 None (Some LANDSCAPE);
    mkImage "Default-Landscape@~ipadpro.png" 2732 2048 None (Some LANDSCAPE);
    mkImage "Default-Landscape~ipad.png" 1024 768 None (Some LANDSCAPE);
    mkImage "Default-Portrait@2x~ipad.png" 1536 2048 None (Some PORTRAIT);
    mkImage "Default-Portrait@~ipadpro.png" 2048 2732 None (Some PORTRAIT);
    mkImage "Default-Portrait~ipad.png" 768 1024 None (Some PORTRAIT);
    mkImage "Default@2x~iphone.png" 640 960 None (Some PORTRAIT);
    mkImage "Default~iphone.png" 320 480 None (Some PORTRAIT);
    mkImage "Default@2x~ipad~anyany.png" 2732 2732 None None;
    mkImage "Default@2x~ipad~comany.png" 1278 2732 None (Some PORTRAIT);
    mkImage "Default@2x~iphone~anyany.png" 1334 1334 None None;
    mkImage "Default@2x~iphone~comany.png" 750 1334 None (Some PORTRAIT);
    mkImage "Default@2x~iphone~comcom.png" 1334 750 None (Some LANDSCAPE);
    mkImage "Default@3x~iphone~anyany.png" 2436 2436 None None;
    mkImage "Default@3x~iphone~anycom.png" 2436 1242 None (Some LANDSCAPE);
    mkImage "Default@3x~iphone~comany.png" 1242 2436 None (Some PORTRAIT) ];
  nodeName := "splash";
  nodeAttributes := [SRC; WIDTH; HEIGHT]
|}.

Definition RESOURCES (p : Platform) (t : ResourceType) : ResourcesTypeConfig :=
  match p, t with
  | ANDROID, ICON => ANDROID_ICON
  | ANDROID, SPLASH => ANDROID_SPLASH
  | IOS, ICON => IOS_ICON
  | IOS, SPLASH => IOS_SPLASH
  end.

Definition PLATFORMS : list Platform := [ANDROID; IOS].

(** Every image of a resource type, over all platforms of the catalog. *)
Definition catalogImages (t : ResourceType) : list ResourcesImageConfig :=
  flat_map (fun p => images (RESOURCES p t)) PLATFORMS.

Definition catalogMaxWidth (t : ResourceType) : Z :=
  foldr Z.max 0 (map img_width (catalogImages t)).

Definition catalogMaxHeight (t : ResourceType) : Z :=
  foldr Z.max 0 (map img_height (catalogImages t)).

(** ** Resource-type names ([isSupportedResourceType], [validateResourceTypes])

    At run time a [ResourceType] is its string value and [RESOURCE_TYPES] is
    the array of those strings; the functions below take arbitrary strings. *)

(** [RESOURCE_TYPES.includes(type)] *)
Definition isSupportedResourceType (type : string) : bool :=
  existsb (fun t => String.eqb (ResourceType_value t) type) RESOURCE_TYPES.

(** The [for] loop of [validateResourceTypes]; [result] is the array pushed
    to. *)
Fixpoint validateResourceTypes_loop (types : list string) (result : list string)
    : Exn + list string :=
  match types with
  | [] => inr result
  | type :: rest =>
      if negb (isSupportedResourceType type) then
        inl (EOther ("Unsupported resource type: " +:+ type))
      else validateResourceTypes_loop rest (result ++ [type])
  end.

Definition validateResourceTypes (types : list string) : Exn + list string :=
  validateResourceTypes_loop types [].

(** ** Vocabulary for the catalog *)

(** The string value of a [Density] member. *)
Definition Density_value (d : Density) : string :=
  match d with
  | LDPI => "ldpi" | MDPI => "mdpi" | HDPI => "hdpi"
  | XHDPI => "xhdpi" | XXHDPI => "xxhdpi" | XXXHDPI => "xxxhdpi"
  | LAND_LDPI => "land-ldpi" | LAND_MDPI => "land-mdpi" | LAND_HDPI => "land-hdpi"
  | LAND_XHDPI => "land-xhdpi" | LAND_XXHDPI => "land-xxhdpi"
  | LAND_XXXHDPI => "land-xxxhdpi"
  | PORT_LDPI => "port-ldpi" | PORT_MDPI => "port-mdpi" | PORT_HDPI => "port-hdpi"
  | PORT_XHDPI => "port-xhdpi" | PORT_XXHDPI => "port-xxhdpi"
  | PORT_XXXHDPI => "port-xxxhdpi"
  end.

#[global] Instance Density_eq_dec : EqDecision Density.
Proof. solve_decision. Defined.

(** The orientation a density qualifier stands for, if any. *)
Definition density_orientation (d : Density) : option Orientation :=
  match d with
  | LDPI | MDPI | HDPI | XHDPI | XXHDPI | XXXHDPI => None
  | LAND_LDPI | LAND_MDPI | LAND_HDPI | LAND_XHDPI | LAND_XXHDPI | LAND_XXXHDPI =>
      Some LANDSCAPE
  | PORT_LDPI | PORT_MDPI | PORT_HDPI | PORT_XHDPI | PORT_XXHDPI | PORT_XXXHDPI =>
      Some PORTRAIT
  end.

(** Whether an image object of the catalog defines a key; [src] is not a key
    of the catalog's objects. *)
Definition has_key (i : ResourcesImageConfig) (k : ResourceKey) : bool :=
  match k with
  | SRC => false
  | NAME | WIDTH | HEIGHT => true
  | DENSITY => bool_decide (is_Some (density i))
  | ORIENTATION => bool_decide (is_Some (orientation i))
  end.

(** The resource type a failure was raised for. *)
Definition type_of (d : ValidationErrorDetails) : ResourceType :=
  match d with
  | BadFormat _ type _ _ => type
  | BadSize _ type _ _ _ _ => type
  end.

(** ** Collaborators and the effect model ([image.ts])

    The program runs against a file system ([readFile], [writeFile]), an
    image codec ([sharp]) and, optionally, a diagnostic stream.  A [Sharp]
    object is mutable: [resize] and [png] update it in place and return the
    same object, so [Sharp] objects live in a store and the program holds
    references to them. *)

Definition Buffer := list Byte.byte.

Inductive WritableStream := Stream (fd : nat).

Section Pipeline.

Context {PngOptions : Type}.

Record Sharp := mkSharp {
  input : Buffer;
  resizeTo : option (Z * Z);
  pngOptions : option PngOptions
}.

#[global] Instance Sharp_inhabited : Inhabited Sharp := populate (mkSharp [] None None).

Definition SharpRef := nat.

(** The behaviour of the native codec and of the platform, taken as given:
    [codec_metadata] is what [metadata()] resolves to for an input buffer
    (or the message it rejects with), [codec_toBuffer] what [toBuffer()]
    resolves to for a pipeline in a given state, [fs_writable] whether a
    [writeFile] to a path succeeds, [format_error] how [util.format]
    renders an error under [%s]. *)
Class Collaborators := {
  codec_metadata : Buffer -> string + Metadata;
  codec_toBuffer : Sharp -> string + Buffer;
  fs_writable : string -> bool;
  format_error : Exn -> string
}.

Context `{Collaborators}.

(** The calls made to the collaborators, recorded in the order made. *)
Inductive Event :=
| EvReadFile (path : string)
| EvMetadata (input : Buffer)
| EvToBuffer (pipeline : Sharp)
| EvWriteFile (path : string) (data : Buffer)
| EvEnsureDir (path : string)
| EvStreamWrite (stream : WritableStream) (chunk : string).

(** The files on disk and the store of [Sharp] objects; a reference is an
    index into the store, and [sharp] allocates at its end. *)
Record State := mkState {
  fs : gmap string Buffer;
  heap : list Sharp
}.

Record Outcome (A : Type) := mkOutcome {
  result : Exn + A;
  state : State;
  events : list Event
}.
Arguments mkOutcome {A}.
Arguments result {A}.
Arguments state {A}.
Arguments events {A}.

(** An asynchronous computation that may throw: it maps the state before to
    its result, the state after and the collaborator calls it made. *)
Definition M (A : Type) : Type := State -> Outcome A.

#[global] Instance M_ret : MRet M := fun A a st => mkOutcome (inr a) st [].

#[global] Instance M_bind : MBind M := fun A B f m st =>
  let o := m st in
  match result o with
  | inl e => mkOutcome (inl e) (state o) (events o)
  | inr a => let o' := f a (state o) in
             mkOutcome (result o') (state o') (events o ++ events o')
  end.

Definition throw {A} (e : Exn) : M A := fun st => mkOutcome (inl e) st [].

(** [try { body } catch (e) { handler }] *)
Definition try_catch {A} (body : M A) (handler : Exn -> M A) : M A := fun st =>
  let o := body st in
  match result o with
  | inr a => o
  | inl e => let o' := handler e (state o) in
             mkOutcome (result o') (state o') (events o ++ events o')
  end.

(** *** File system and stream primitives *)

(** [readFile(path)]: the bytes of the file, or a rejection when there is
    no such file. *)
Definition readFile (path : string) : M Buffer := fun st =>
  mkOutcome
    (match fs st !! path with
     | Some data => inr data
     | None => inl (EOther ("ENOENT: no such file or directory, open '" +:+ path +:+ "'"))
     end)
    st [EvReadFile path].

(** [writeFile(path, data)]: one call with the whole buffer; the file then
    holds exactly that buffer, or the call rejects and the files are as
    before. *)
Definition writeFile (path : string) (data : Buffer) : M unit := fun st =>
  if fs_writable path then
    mkOutcome (inr tt) (mkState (<[path := data]> (fs st)) (heap st)) [EvWriteFile path data]
  else
    mkOutcome (inl (EOther ("EACCES: permission denied, open '" +:+ path +:+ "'")))
              st [EvWriteFile path data].

(** [stream.write(chunk)] *)
Definition stream_write (s : WritableStream) (chunk : string) : M unit := fun st =>
  mkOutcome (inr tt) st [EvStreamWrite s chunk].

(** *** The [Sharp] object *)

(** [sharp(buffer)]: a fresh pipeline over the buffer. *)
Definition sharp (data : Buffer) : M SharpRef := fun st =>
  mkOutcome (inr (length (heap st)))
            (mkState (fs st) (heap st ++ [mkSharp data None None])) [].

(** [pipeline.metadata()] *)
Definition metadata (pipeline : SharpRef) : M Metadata := fun st =>
  let data := input (heap st !!! pipeline) in
  mkOutcome
    (match codec_metadata data with
     | inl msg => inl (EOther msg)
     | inr md => inr md
     end)
    st [EvMetadata data].

(** [pipeline.resize(width, height)]: updates the object, returns it. *)
Definition resize (pipeline : SharpRef) (w h : Z) : M SharpRef := fun st =>
  mkOutcome (inr pipeline)
    (mkState (fs st)
       (alter (fun p => mkSharp (input p) (Some (w, h)) (pngOptions p)) pipeline (heap st)))
    [].

(** [pipeline.png(options)]: updates the object, returns it. *)
Definition png (pipeline : SharpRef) (options : PngOptions) : M SharpRef := fun st =>
  mkOutcome (inr pipeline)
    (mkState (fs st)
       (alter (fun p => mkSharp (input p) (resizeTo p) (Some options)) pipeline (heap st)))
    [].

(** [pipeline.toBuffer()] *)
Definition toBuffer (pipeline : SharpRef) : M Buffer := fun st =>
  let p := heap st !!! pipeline in
  mkOutcome
    (match codec_toBuffer p with
     | inl msg => inl (EOther msg)
     | inr data => inr data
     end)
    st [EvToBuffer p].

(** *** [RESOURCE_VALIDATORS] *)

Definition lift {A} (r : Exn + A) : M A :=
  match r with inl e => throw e | inr a => mret a end.

Definition RESOURCE_VALIDATORS (type : ResourceType) (source : string)
    (pipeline : SharpRef) : M unit :=
  md ← metadata pipeline;
  lift (check type source md).

(** *** [resolveSourceImage] *)

(** The body of the [try] block, for one candidate. *)
Definition try_source (type : ResourceType) (source : string) : M (string * SharpRef) :=
  data ← readFile source;
  image ← sharp data;
  _ ← RESOURCE_VALIDATORS type source image;
  mret (source, image).

(** The [for] loop over [sources]; [errors] is the array filled by the
    [catch] clause.  [inl] is the [return] from inside the loop, [inr] the
    array at the loop's normal exit. *)
Fixpoint resolve_loop (type : ResourceType) (sources : list string)
    (errors : list (string * Exn)) : M ((string * SharpRef) + list (string * Exn)) :=
  match sources with
  | [] => mret (inr errors)
  | source :: rest =>
      try_catch
        (found ← try_source type source; mret (inl found))
        (fun e => resolve_loop type rest (errors ++ [(source, e)]))
  end.

(** The line feed appended by the template literal. *)
Definition newline : string := String (Ascii.ascii_of_nat 10) EmptyString.

Definition warning (source : string) (error : Exn) : string :=
  "WARN: Error with source file " +:+ source +:+ ": " +:+ format_error error.

Fixpoint write_warnings (errstream : WritableStream)
    (errors : list (string * Exn)) : M unit :=
  match errors with
  | [] => mret tt
  | (source, error) :: rest =>
      _ ← stream_write errstream (warning source error +:+ newline);
      write_warnings errstream rest
  end.

Definition join (sep : string) (l : list string) : string := String.concat sep l.

Definition resolveSourceImage (type : ResourceType) (sources : list string)
    (errstream : option WritableStream) : M (string * SharpRef) :=
  r ← resolve_loop type sources [];
  match r with
  | inl found => mret found
  | inr errors =>
      _ ← match errstream with
          | Some s => write_warnings s errors
          | None => mret tt
          end;
      throw (EResolveSourceImage
               ("Could not find suitable source image. Looked at: " +:+ join ", " sources)
               (omap (fun '(_, error) => asValidationError error) errors))
  end.

(** *** [generateImage] and [transformImage] *)

Record ImageSchema := mkImageSchema {
  schema_width : Z;
  schema_height : Z
}.

Definition transformImage (image : ImageSchema) (src : SharpRef)
    (options : option PngOptions) : M SharpRef :=
  resize src (schema_width image) (schema_height image).

Definition generateImage (image : ImageSchema) (src : SharpRef) (dest : string)
    (options : option PngOptions) : M unit :=
  pipeline ← transformImage image src options;
  pipelineBuffer ← match options with
                   | Some o => (p ← png pipeline o; toBuffer p)
                   | None => toBuffer pipeline
                   end;
  writeFile dest pipelineBuffer.

(** *** The Platform Runner *)

Record TypeOptions := mkTypeOptions {
  sources : list string;
  encodeOptions : option PngOptions
}.

Record GeneratedImage := mkGeneratedImage {
  outputPath : string;
  spec : ResourcesImageConfig;
  sourcePath : string
}.

(** A catalog entry, seen as the [ImageSchema] that [generateImage] takes. *)
Definition schema_of (i : ResourcesImageConfig) : ImageSchema :=
  mkImageSchema (img_width i) (img_height i).

(** [ensureDir(path)] of the file-system collaborator: creates the directory
    if it is absent, no error if it is present. *)
Definition ensureDir (path : string) : M unit := fun st =>
  mkOutcome (inr tt) st [EvEnsureDir path].

Section Runner.

(** What the specification leaves to the platform module: the output
    directory of a platform and resource type under the output root, and how
    a type's own encode options combine with the shared ones. *)
Variable outputDir : string -> Platform -> ResourceType -> string.
Variable effectiveOptions : option PngOptions -> option PngOptions -> option PngOptions.

(** Modelled from the spec: the per-type generation loop of the Platform
    Runner ([src/platform.ts] is not among the sources).  For every
    ImageSpec of the catalog entry, in catalog order, the Image Generator is
    called with the single resolved source and the destination
    [<dir>/<outputFileName>]; one GeneratedImage is produced per ImageSpec. *)
Fixpoint generate_all (dir src : string) (image : SharpRef)
    (options : option PngOptions) (specs : list ResourcesImageConfig)
    : M (list GeneratedImage) :=
  match specs with
  | [] => mret []
  | s :: rest =>
      let dest := dir +:+ "/" +:+ name s in
      _ ← generateImage (schema_of s) image dest options;
      more ← generate_all dir src image options rest;
      mret (mkGeneratedImage dest s src :: more)
  end.

(** Modelled from the spec: one requested resource type of the Platform
    Runner ([src/platform.ts] is not among the sources): ensure the output
    directory exists, call the Source Resolver once, then generate every
    ImageSpec of the catalog entry from the resolved source.  A failure of
    any step propagates. *)
Definition runType (platform : Platform) (root : string) (type : ResourceType)
    (o : TypeOptions) (shared : option PngOptions) : M (list GeneratedImage) :=
  let dir := outputDir root platform type in
  _ ← ensureDir dir;
  resolved ← resolveSourceImage type (sources o) None;
  generate_all dir (fst resolved) (snd resolved)
    (effectiveOptions (encodeOptions o) shared)
    (images (RESOURCES platform type)).

(** Modelled from the spec: the Platform Runner [run]
    ([src/platform.ts] is not among the sources): the requested resource
    types are processed in the order the caller enumerated them and their
    results concatenated in that order. *)
Fixpoint run (platform : Platform) (root : string)
    (requested : list (ResourceType * TypeOptions))
    (shared : option PngOptions) : M (list GeneratedImage) :=
  match requested with
  | [] => mret []
  | (type, o) :: rest =>
      imgs ← runType platform root type o shared;
      more ← run platform root rest shared;
      mret (imgs ++ more)
  end.

End Runner.

(** *** Vocabulary for stating properties *)

(** What trying one candidate comes to, as a function of the files: the
    error caught for it, or the buffer of the accepted image. *)
Definition probe (type : ResourceType) (files : gmap string Buffer)
    (source : string) : Exn + Buffer :=
  match files !! source with
  | None => inl (EOther ("ENOENT: no such file or directory, open '" +:+ source +:+ "'"))
  | Some data =>
      match codec_metadata data with
      | inl msg => inl (EOther msg)
      | inr md =>
          match check type source md with
          | inl e => inl e
          | inr _ => inr data
          end
      end
  end.

(** The collaborator calls made for one candidate: the read and, when the
    read succeeds, the decode. *)
Definition probe_events (files : gmap string Buffer) (source : string) : list Event :=
  EvReadFile source ::
  match files !! source with
  | Some data => [EvMetadata data]
  | None => []
  end.

(** A candidate that cannot be read, cannot be decoded or fails the checks. *)
Definition fails (type : ResourceType) (files : gmap string Buffer)
    (source : string) : Prop :=
  exists e, probe type files source = inl e.

(** A candidate that is read and decoded and fails the checks. *)
Definition fails_validation (type : ResourceType) (files : gmap string Buffer)
    (source : string) : Prop :=
  exists v, probe type files source = inl (EValidation v).

(** The failures of the candidates that fail, in candidate order. *)
Definition failures (type : ResourceType) (files : gmap string Buffer)
    (sources : list string) : list (string * Exn) :=
  omap (fun source => match probe type files source with
                      | inl e => Some (source, e)
                      | inr _ => None
                      end) sources.

Definition is_readFile (e : Event) : bool :=
  match e with EvReadFile _ => true | _ => false end.

Definition is_metadata (e : Event) : bool :=
  match e with EvMetadata _ => true | _ => false end.

Definition is_toBuffer (e : Event) : bool :=
  match e with EvToBuffer _ => true | _ => false end.

Definition is_writeFile (e : Event) : bool :=
  match e with EvWriteFile _ _ => true | _ => false end.

(** The chunks written to a stream, in order. *)
Definition stream_writes (s : WritableStream) (evs : list Event) : list string :=
  omap (fun e => match e with
                 | EvStreamWrite (Stream fd') chunk =>
                     let '(Stream fd) := s in
                     if Nat.eqb fd fd' then Some chunk else None
                 | _ => None
                 end) evs.

(** The file writes attempted, in order. *)
Definition file_writes (evs : list Event) : list (string * Buffer) :=
  omap (fun e => match e with
                 | EvWriteFile path data => Some (path, data)
                 | _ => None
                 end) evs.

(** The files after a sequence of collaborator calls. *)
Definition apply_event (files : gmap string Buffer) (e : Event) : gmap string Buffer :=
  match e with
  | EvWriteFile path data => if fs_writable path then <[path := data]> files else files
  | _ => files
  end.

Definition apply_events (evs : list Event) (files : gmap string Buffer)
    : gmap string Buffer :=
  foldl apply_event files evs.

(** The buffer last written to a path by a sequence of collaborator calls,
    if a write to it succeeded. *)
Fixpoint last_write (path : string) (evs : list Event) : option Buffer :=
  match evs with
  | [] => None
  | e :: rest =>
      match last_write path rest with
      | Some data => Some data
      | None =>
          match e with
          | EvWriteFile path' data =>
              if fs_writable path' && String.eqb path' path then Some data else None
          | _ => None
          end
      end
  end.

(** Every candidate source path named by a request. *)
Definition all_sources (requested : list (ResourceType * TypeOptions)) : list string :=
  flat_map (fun r => sources (snd r)) requested.

(** The output of the encoder for a pipeline, empty when it fails. *)
Definition encoded (q : Sharp) : Buffer :=
  match codec_toBuffer q with inr data => data | inl _ => [] end.

(** A computation leaves the files as its own [writeFile] calls made them. *)
Definition tracks {A} (m : M A) : Prop :=
  forall st : State, fs (state (m st)) = apply_events (events (m st)) (fs st).

(** The warning lines written for a list of recorded failures. *)
Definition warning_lines (errors : list (string * Exn)) : list string :=
  map (fun '(source, error) => warning source error +:+ newline) errors.

(** The [ValidationError]s among the failures of the candidates, in
    candidate order. *)
Definition validation_failures (type : ResourceType) (files : gmap string Buffer)
    (sources : list string) : list ValidationError :=
  omap (fun '(_, error) => asValidationError error) (failures type files sources).

(** The pipeline object as [generateImage] leaves it, and as [toBuffer]
    sees it: resized to the schema, with the PNG options when given. *)
Definition transformed (image : ImageSchema) (options : option PngOptions)
    (p : Sharp) : Sharp :=
  mkSharp (input p) (Some (schema_width image, schema_height image))
    (match options with Some o => Some o | None => pngOptions p end).

(** The collaborator calls of generating one catalog entry. *)
Definition generate_events (dir : string) (options : option PngOptions) (p : Sharp)
    (s : ResourcesImageConfig) : list Event :=
  [EvToBuffer (transformed (schema_of s) options p);
   EvWriteFile (dir +:+ "/" +:+ name s)
     (encoded (transformed (schema_of s) options p))].

(** The paths read, in order. *)
Definition read_paths (evs : list Event) : list string :=
  omap (fun e => match e with EvReadFile path => Some path | _ => None end) evs.

(** The calls other than writes to a stream. *)
Definition is_streamWrite (e : Event) : bool :=
  match e with EvStreamWrite _ _ => true | _ => false end.

Definition non_stream (evs : list Event) : list Event :=
  filter (fun e => is_streamWrite e = false) evs.

(** A computation only allocates: every [Sharp] object of the store is still
    there, in the state it was in. *)
Definition allocates_only {A} (m : M A) : Prop :=
  forall st : State, heap st `prefix_of` heap (state (m st)).

Definition source_of (d : ValidationErrorDetails) : string :=
  match d with
  | BadFormat source _ _ _ => source
  | BadSize source _ _ _ _ _ => source
  end.

End Pipeline.

Arguments Sharp PngOptions : clear implicits.
Arguments Collaborators PngOptions : clear implicits.
Arguments Event PngOptions : clear implicits.
Arguments State PngOptions : clear implicits.
Arguments Outcome PngOptions A : clear implicits.
Arguments M PngOptions A : clear implicits.
Arguments TypeOptions PngOptions : clear implicits.
Arguments mkOutcome {PngOptions A}.
Arguments result {PngOptions A}.
Arguments state {PngOptions A}.
Arguments events {PngOptions A}.

(** ** A small concrete instance of the collaborators

    A codec over five-byte headers (a format tag, then width and height as
    two bytes each, high byte first), every path writable; used to run the
    pipeline on concrete inputs. *)

Module Fixture.

Definition byte_of (z : Z) : Byte.byte :=
  default Byte.x00 (Byte.of_N (Z.to_N (z mod 256))).

Definition word (hi lo : Byte.byte) : Z :=
  Z.of_N (Byte.to_N hi) * 256 + Z.of_N (Byte.to_N lo).

Definition header (tag : Byte.byte) (w h : Z) : Buffer :=
  [tag; byte_of (w / 256); byte_of w; byte_of (h / 256); byte_of h].

Definition unsupported : string := "Input buffer contains unsupported image format".

Definition metadata_of (data : Buffer) : string + Metadata :=
  match data with
  | tag :: w1 :: w0 :: h1 :: h0 :: _ =>
      if Byte.eqb tag Byte.x01 then
        inr (mkMetadata (Some "png") (Some (word w1 w0)) (Some (word h1 h0)))
      else if Byte.eqb tag Byte.x02 then
        inr (mkMetadata (Some "jpeg") (Some (word w1 w0)) (Some (word h1 h0)))
      else inl unsupported
  | _ => inl unsupported
  end.

(** Options are a quality; the encoder writes a PNG header at the target
    size, followed by the quality when one is set. *)
Definition encode (p : Sharp Z) : string + Buffer :=
  match metadata_of (input p) with
  | inl msg => inl msg
  | inr md =>
      let w := default 0 (width md) in
      let h := default 0 (height md) in
      let '(w', h') := default (w, h) (resizeTo p) in
      inr (header Byte.x01 w' h' ++
           match pngOptions p with Some q => [byte_of q] | None => [] end)
  end.

Definition show_error (e : Exn) : string :=
  match e with
  | EValidation v => "ValidationError: " +:+ message v
  | EResolveSourceImage msg _ => "ResolveSourceImageError: " +:+ msg
  | EOther msg => "Error: " +:+ msg
  end.

Definition collaborators : Collaborators Z := {|
  codec_metadata := metadata_of;
  codec_toBuffer := encode;
  fs_writable := fun _ => true;
  format_error := show_error
|}.

Definition png1024 : Buffer := header Byte.x01 1024 1024.
Definition png_small : Buffer := header Byte.x01 1024 1023.
Definition jpeg1024 : Buffer := header Byte.x02 1024 1024.

(** Three candidates: a JPEG, then two PNGs of full size. *)
Definition three_files : gmap string Buffer :=
  <["a.jpg" := jpeg1024]> (<["b.png" := png1024]> (<["c.png" := png1024]> ∅)).

(** One undersized PNG; [missing.png] does not exist. *)
Definition small_file : gmap string Buffer :=
  <["small.png" := png_small]> ∅.

Definition three_state : State Z := mkState three_files [].
Definition small_state : State Z := mkState small_file [].

(** Two candidates that are read and decoded and fail the icon checks: a
    JPEG and an undersized PNG. *)
Definition failing_files : gmap string Buffer :=
  <["a.jpg" := jpeg1024]> (<["small.png" := png_small]> ∅).
Definition failing_state : State Z := mkState failing_files [].

(** One source, a full-size PNG, and nothing else on disk. *)
Definition icon_files : gmap string Buffer := <["icon.png" := png1024]> ∅.
Definition run_state : State Z := mkState icon_files [].

(** The same source beside a stale output file and an old pipeline object. *)
Definition stale_state : State Z :=
  mkState (<["resources/android/icon/drawable-ldpi-icon.png" := [Byte.x00]]> icon_files)
          [mkSharp jpeg1024 (Some (1, 1)) None].

(** A state holding one live pipeline over a 10x10 JPEG. *)
Definition jpeg_state : State Z := mkState ∅ [mkSharp (header Byte.x02 10 10) None None].

(** A state holding one live pipeline over a full-size PNG. *)
Definition icon_state : State Z := mkState ∅ [mkSharp png1024 None None].

Definition outputDir (root : string) (p : Platform) (t : ResourceType) : string :=
  root +:+ "/" +:+ match p with ANDROID => "android" | IOS => "ios" end
       +:+ "/" +:+ ResourceType_value t.

(** A type's own options when it has them, the shared ones otherwise. *)
Definition effectiveOptions (own shared : option Z) : option Z :=
  match own with Some o => Some o | None => shared end.

End Fixture.

(** * Properties *)

(** ** The catalog and the validators *)

Lemma check_cases (t : ResourceType) (source : string) (f : option string) (w h : option Z) :
  check t source (mkMetadata f w h) =
    if format_differs f "png" then
      inl (EValidation (mkValidationError (bad_format_message t f)
                          (BadFormat source t f "png")))
    else if falsy w || falsy h
            || lt_required w (requiredWidth t) || lt_required h (requiredHeight t) then
      inl (EValidation (mkValidationError (bad_size_message t w h)
                          (BadSize source t w h (requiredWidth t) (requiredHeight t))))
    else inr tt.
Proof.
  destruct t; reflexivity.
Qed.

Lemma format_differs_false (f : option string) (required : string) :
  format_differs f required = false <-> f = Some required.
Proof.
  destruct f as [s|]; simpl.
  - rewrite negb_false_iff, String.eqb_eq. split; congruence.
  - split; discriminate.
Qed.

Lemma falsy_true (n : option Z) : falsy n = true <-> n = None \/ n = Some 0.
Proof.
  destruct n as [v|]; simpl.
  - rewrite Z.eqb_eq. split; [intros ->; now right | intros [?|?]; congruence].
  - split; [now left | reflexivity].
Qed.

Lemma lt_required_true (n : option Z) (r : Z) :
  lt_required n r = true <-> exists v, n = Some v /\ v < r.
Proof.
  destruct n as [v|]; simpl.
  - rewrite Z.ltb_lt. split; [eauto | intros (v' & [= <-] & ?); assumption].
  - split; [discriminate | intros (? & ? & _); discriminate].
Qed.

Lemma catalogMax_values :
  catalogMaxWidth ICON = 1024 /\ catalogMaxHeight ICON = 1024 /\
  catalogMaxWidth SPLASH = 2732 /\ catalogMaxHeight SPLASH = 2732.
Proof. repeat split; vm_compute; reflexivity. Qed.

Lemma required_is_catalogMax (t : ResourceType) :
  requiredWidth t = catalogMaxWidth t /\ requiredHeight t = catalogMaxHeight t.
Proof. destruct t; split; vm_compute; reflexivity. Qed.

Lemma required_positive (t : ResourceType) :
  0 < requiredWidth t /\ 0 < requiredHeight t.
Proof. destruct t; cbn; lia. Qed.

(** A PNG source with both dimensions present is accepted exactly when both
    reach the thresholds. *)
Lemma check_png_accepts (t : ResourceType) (source : string) (w h : Z) :
  check t source (mkMetadata (Some "png") (Some w) (Some h)) = inr tt
  <-> requiredWidth t <= w /\ requiredHeight t <= h.
Proof.
  rewrite check_cases. change (format_differs (Some "png") "png") with false.
  cbv iota. destruct (required_positive t) as [Hw Hh]. cbn [falsy lt_required].
  destruct (w =? 0) eqn:E1, (h =? 0) eqn:E2,
           (w <? requiredWidth t) eqn:E3, (h <? requiredHeight t) eqn:E4;
    cbn [orb]; split; try discriminate; try reflexivity; lia.
Qed.

(** ** The validators *)

Section ValidatorFacts.

Context {PngOptions : Type} {H : Collaborators PngOptions}.

Local Abbreviation State := (State PngOptions).
Local Abbreviation M := (M PngOptions).

Lemma bind_unfold {A B} (m : M A) (f : A -> M B) (st : State) :
  (m ≫= f) st =
    match result (m st) with
    | inl e => mkOutcome (inl e) (state (m st)) (events (m st))
    | inr a => mkOutcome (result (f a (state (m st)))) (state (f a (state (m st))))
                 (events (m st) ++ events (f a (state (m st))))
    end.
Proof. reflexivity. Qed.

Lemma RESOURCE_VALIDATORS_check (type : ResourceType) (source : string)
    (pipeline : SharpRef) (st : State) :
  let o := RESOURCE_VALIDATORS type source pipeline st in
  state o = st /\
  events o = [EvMetadata (input (heap st !!! pipeline))] /\
  result o = match codec_metadata (input (heap st !!! pipeline)) with
             | inl msg => inl (EOther msg)
             | inr md => check type source md
             end.
Proof.
  unfold RESOURCE_VALIDATORS. cbv zeta. rewrite bind_unfold. unfold metadata. cbn.
  destruct (codec_metadata (input (heap st !!! pipeline))) as [msg|md]; cbn.
  - auto.
  - destruct (check type source md) as [e|[]]; cbn; auto.
Qed.

(** The validator of a type, run on a pipeline: the checks of the type on
    the metadata the codec decodes, or the codec's error. *)
Lemma validator_result (t : ResourceType) (source : string) (pipeline : SharpRef)
    (st : State) :
  result (RESOURCE_VALIDATORS t source pipeline st) =
    match codec_metadata (input (heap st !!! pipeline)) with
    | inl msg => inl (EOther msg)
    | inr md => check t source md
    end.
Proof. exact (proj2 (proj2 (RESOURCE_VALIDATORS_check t source pipeline st))). Qed.

(** C1. Catalog self-consistency: for each resource type the minimum width
    and height its validator requires are the largest width and the largest
    height among the catalog's images of that type, over all platforms
    (1024x1024 for icons, 2732x2732 for splash screens): these are the
    dimensions from which the validator accepts a PNG source, and the
    required dimensions a size failure reports. *)
Theorem catalog_self_consistency (t : ResourceType) (source : string)
    (pipeline : SharpRef) (st : State) (w h : Z) :
  result (RESOURCE_VALIDATORS t source pipeline st) =
    match codec_metadata (input (heap st !!! pipeline)) with
    | inl msg => inl (EOther msg)
    | inr md => check t source md
    end /\
  requiredWidth t = catalogMaxWidth t /\
  requiredHeight t = catalogMaxHeight t /\
  (check t source (mkMetadata (Some "png") (Some w) (Some h)) = inr tt
     <-> catalogMaxWidth t <= w /\ catalogMaxHeight t <= h) /\
  check t source (mkMetadata (Some "png") None None) =
    inl (EValidation (mkValidationError (bad_size_message t None None)
           (BadSize source t None None (catalogMaxWidth t) (catalogMaxHeight t)))) /\
  (catalogMaxWidth ICON, catalogMaxHeight ICON) = (1024, 1024) /\
  (catalogMaxWidth SPLASH, catalogMaxHeight SPLASH) = (2732, 2732).
Proof.
  destruct (required_is_catalogMax t) as [Ew Eh].
  destruct catalogMax_values as (I1 & I2 & S1 & S2).
  refine (conj (validator_result t source pipeline st)
            (conj Ew (conj Eh (conj _ (conj _ (conj _ _)))))).
  - rewrite <- Ew, <- Eh. apply check_png_accepts.
  - rewrite <- Ew, <- Eh. destruct t; reflexivity.
  - rewrite I1, I2. reflexivity.
  - rewrite S1, S2. reflexivity.
Qed.

(** C5. The icon validator runs the icon checks on the decoded metadata;
    they reject a 1024x1023 PNG with a size failure, accept a 1024x1024 PNG,
    and reject a 1024x1024 JPEG with a format failure that records the
    format jpeg against the required png. *)
Theorem icon_validator_examples (source : string) (pipeline : SharpRef) (st : State) :
  result (RESOURCE_VALIDATORS ICON source pipeline st) =
    match codec_metadata (input (heap st !!! pipeline)) with
    | inl msg => inl (EOther msg)
    | inr md => check ICON source md
    end /\
  check ICON source (mkMetadata (Some "png") (Some 1024) (Some 1023)) =
    inl (EValidation (mkValidationError
           (bad_size_message ICON (Some 1024) (Some 1023))
           (BadSize source ICON (Some 1024) (Some 1023) 1024 1024))) /\
  rejects_with (check ICON source (mkMetadata (Some "png") (Some 1024) (Some 1023)))
    BAD_IMAGE_SIZE /\
  check ICON source (mkMetadata (Some "png") (Some 1024) (Some 1024)) = inr tt /\
  check ICON source (mkMetadata (Some "jpeg") (Some 1024) (Some 1024)) =
    inl (EValidation (mkValidationError
           (bad_format_message ICON (Some "jpeg"))
           (BadFormat source ICON (Some "jpeg") "png"))) /\
  rejects_with (check ICON source (mkMetadata (Some "jpeg") (Some 1024) (Some 1024)))
    BAD_IMAGE_FORMAT.
Proof.
  split; [apply validator_result|].
  repeat split.
  - eexists. split; reflexivity.
  - eexists. split; reflexivity.
Qed.

(** C6. The validator of either resource type runs its checks on the decoded
    metadata; for a PNG source they fail with a size failure exactly when
    the width or the height is absent or zero, or one of them is strictly
    below the required minimum; otherwise they succeed, so nothing else is
    raised; and a source at or above the required minimum in both
    dimensions, by any excess, is accepted. *)
Theorem validator_bad_size_iff (t : ResourceType) (source : string)
    (pipeline : SharpRef) (st : State) (w h : option Z) (dw dh : N) :
  result (RESOURCE_VALIDATORS t source pipeline st) =
    match codec_metadata (input (heap st !!! pipeline)) with
    | inl msg => inl (EOther msg)
    | inr md => check t source md
    end /\
  (rejects_with (check t source (mkMetadata (Some "png") w h)) BAD_IMAGE_SIZE
     <-> w = None \/ w = Some 0 \/ h = None \/ h = Some 0
         \/ (exists v, w = Some v /\ v < requiredWidth t)
         \/ (exists v, h = Some v /\ v < requiredHeight t)) /\
  (rejects_with (check t source (mkMetadata (Some "png") w h)) BAD_IMAGE_SIZE
     \/ check t source (mkMetadata (Some "png") w h) = inr tt) /\
  check t source (mkMetadata (Some "png")
                    (Some (requiredWidth t + Z.of_N dw))
                    (Some (requiredHeight t + Z.of_N dh))) = inr tt.
Proof.
  split; [apply validator_result|].
  split; [|split].
  - rewrite check_cases. change (format_differs (Some "png") "png") with false.
    cbv iota.
    destruct (falsy w || falsy h || lt_required w (requiredWidth t)
              || lt_required h (requiredHeight t)) eqn:E.
    + split.
      * intros _. rewrite !orb_true_iff, !falsy_true, !lt_required_true in E. tauto.
      * intros _. eexists. split; reflexivity.
    + split.
      * intros (v & Hv & _). discriminate.
      * intros Hc. exfalso.
        assert (falsy w || falsy h || lt_required w (requiredWidth t)
                || lt_required h (requiredHeight t) = true) as E'.
        { rewrite !orb_true_iff, !falsy_true, !lt_required_true. tauto. }
        congruence.
  - rewrite check_cases. change (format_differs (Some "png") "png") with false.
    cbv iota.
    destruct (falsy w || falsy h || lt_required w (requiredWidth t)
              || lt_required h (requiredHeight t)).
    + left. eexists. split; reflexivity.
    + right. reflexivity.
  - apply check_png_accepts. lia.
Qed.

(** C10. The format check comes first: when the codec decodes a format that
    is not png (or none), the validator of either resource type fails with a
    format failure whatever the width and the height are, also when they
    are below the minimum or absent; it never reports a size failure then. *)
Theorem validator_format_first (t : ResourceType) (source : string)
    (pipeline : SharpRef) (st : State) (f : option string) (w h : option Z) :
  codec_metadata (input (heap st !!! pipeline)) = inr (mkMetadata f w h) ->
  f <> Some "png" ->
  result (RESOURCE_VALIDATORS t source pipeline st) =
    inl (EValidation (mkValidationError (bad_format_message t f)
                        (BadFormat source t f "png"))) /\
  rejects_with (result (RESOURCE_VALIDATORS t source pipeline st)) BAD_IMAGE_FORMAT /\
  ~ rejects_with (result (RESOURCE_VALIDATORS t source pipeline st)) BAD_IMAGE_SIZE.
Proof.
  intros Hmd Hf. rewrite validator_result, Hmd, check_cases.
  destruct (format_differs f "png") eqn:E.
  - split; [reflexivity|]. split.
    + eexists. split; reflexivity.
    + intros (v & [= <-] & Hc). discriminate.
  - apply format_differs_false in E. contradiction.
Qed.

End ValidatorFacts.

(** An undersized JPEG offered as a splash screen: the failure is a format
    failure. *)
Lemma validator_format_first_witness :
  @codec_metadata Z Fixture.collaborators
    (input (heap Fixture.jpeg_state !!! 0%nat))
    = inr (mkMetadata (Some "jpeg") (Some 10) (Some 10)) /\
  Some "jpeg" <> Some "png" /\
  result (RESOURCE_VALIDATORS (H := Fixture.collaborators) SPLASH "splash.jpg" 0%nat
            Fixture.jpeg_state)
    = inl (EValidation (mkValidationError (bad_format_message SPLASH (Some "jpeg"))
                          (BadFormat "splash.jpg" SPLASH (Some "jpeg") "png"))).
Proof.
  assert (@codec_metadata Z Fixture.collaborators
            (input (heap Fixture.jpeg_state
                    !!! 0%nat))
          = inr (mkMetadata (Some "jpeg") (Some 10) (Some 10))) as Hmd
    by (vm_compute; reflexivity).
  assert (Some "jpeg" <> Some "png") as Hf by discriminate.
  split; [exact Hmd|]. split; [exact Hf|].
  exact (proj1 (validator_format_first (H := Fixture.collaborators) SPLASH "splash.jpg"
                  0%nat Fixture.jpeg_state
                  (Some "jpeg") (Some 10) (Some 10) Hmd Hf)).
Defined.

(** ** The source resolver *)

Section Resolver.

Context {PngOptions : Type} {H : Collaborators PngOptions}.

Local Abbreviation State := (State PngOptions).
Local Abbreviation M := (M PngOptions).

Lemma try_source_spec (type : ResourceType) (source : string) (st : State) :
  let o := try_source type source st in
  fs (state o) = fs st /\
  events o = probe_events (fs st) source /\
  match probe type (fs st) source with
  | inl e => result o = inl e
  | inr data => result o = inr (source, length (heap st))
                /\ heap (state o) = heap st ++ [mkSharp data None None]
  end.
Proof.
  unfold try_source, probe, probe_events. cbv zeta.
  rewrite bind_unfold. unfold readFile at 1 2 3 4 5. cbn.
  destruct (fs st !! source) as [data|] eqn:Hf; cbn; [|auto].
  rewrite bind_unfold. cbn.
  rewrite bind_unfold.
  pose proof (RESOURCE_VALIDATORS_check type source (length (heap st))
                (mkState (fs st) (heap st ++ [mkSharp data None None]))) as Hv.
  cbv zeta in Hv. destruct Hv as (Hs & He & Hr).
  cbn [heap] in He, Hr.
  rewrite list_lookup_total_middle in He, Hr by reflexivity. cbn [input] in He, Hr.
  rewrite Hr, Hs, He.
  destruct (codec_metadata data) as [msg|md]; cbn; [auto|].
  destruct (check type source md) as [e|[]]; cbn; auto.
Qed.

Lemma try_catch_unfold {A} (body : M A) (handler : Exn -> M A) (st : State) :
  try_catch body handler st =
    match result (body st) with
    | inr a => body st
    | inl e => mkOutcome (result (handler e (state (body st))))
                 (state (handler e (state (body st))))
                 (events (body st) ++ events (handler e (state (body st))))
    end.
Proof. reflexivity. Qed.

Lemma failures_cons_fail type files source rest e :
  probe type files source = inl e ->
  failures type files (source :: rest) = (source, e) :: failures type files rest.
Proof. intros Hp. unfold failures. cbn. rewrite Hp. reflexivity. Qed.


(** The loop over candidates that all fail: it ends normally with every
    failure recorded, in order, after reading and decoding each one. *)
Lemma resolve_loop_fail type sources : forall errors (st : State),
  Forall (fails type (fs st)) sources ->
  let o := resolve_loop type sources errors st in
  result o = inr (inr (errors ++ failures type (fs st) sources)) /\
  fs (state o) = fs st /\
  events o = flat_map (probe_events (fs st)) sources.
Proof.
  induction sources as [|source rest IH]; intros errors st Hall; cbv zeta.
  - cbn. rewrite app_nil_r. auto.
  - apply Forall_cons in Hall as [[e He] Hrest].
    cbn [resolve_loop]. rewrite try_catch_unfold, bind_unfold.
    pose proof (try_source_spec type source st) as Hs. cbv zeta in Hs.
    destruct Hs as (Hfs & Hev & Hres). rewrite He in Hres. rewrite Hres.
    cbn [result state events].
    specialize (IH (errors ++ [(source, e)]) (state (try_source type source st))).
    rewrite Hfs in IH. specialize (IH Hrest). cbv zeta in IH.
    destruct IH as (IHr & IHf & IHe).
    rewrite IHr, IHf, IHe, Hev, (failures_cons_fail _ _ _ _ _ He).
    rewrite <- app_assoc. cbn. auto.
Qed.

(** The loop at its first viable candidate: it returns from inside the loop
    with that candidate and a fresh pipeline over its bytes, having read and
    decoded the candidates up to it and nothing beyond. *)
Lemma resolve_loop_found type pre source post data : forall errors (st : State),
  Forall (fails type (fs st)) pre ->
  probe type (fs st) source = inr data ->
  let o := resolve_loop type (pre ++ source :: post) errors st in
  exists image,
    result o = inr (inl (source, image)) /\
    heap (state o) !! image = Some (mkSharp data None None) /\
    fs (state o) = fs st /\
    events o = flat_map (probe_events (fs st)) (pre ++ [source]).
Proof.
  induction pre as [|c pre IH]; intros errors st Hall Hp; cbv zeta.
  - cbn [app resolve_loop]. rewrite try_catch_unfold, bind_unfold.
    pose proof (try_source_spec type source st) as Hs. cbv zeta in Hs.
    destruct Hs as (Hfs & Hev & Hres). rewrite Hp in Hres.
    destruct Hres as [Hres Hheap]. rewrite Hres. cbn.
    exists (length (heap st)). rewrite Hheap, Hfs, Hev, !app_nil_r.
    split; [reflexivity|]. split; [|auto].
    now apply list_lookup_middle.
  - apply Forall_cons in Hall as [[e He] Hrest].
    cbn [app resolve_loop]. rewrite try_catch_unfold, bind_unfold.
    pose proof (try_source_spec type c st) as Hs. cbv zeta in Hs.
    destruct Hs as (Hfs & Hev & Hres). rewrite He in Hres. rewrite Hres.
    cbn [result state events].
    specialize (IH (errors ++ [(c, e)]) (state (try_source type c st))).
    rewrite Hfs in IH. specialize (IH Hrest Hp). cbv zeta in IH.
    destruct IH as (image & IHr & IHh & IHf & IHe).
    exists image. rewrite IHr, IHf, IHe, Hev. cbn. auto.
Qed.

(** Every candidate list either fails throughout or splits at its first
    viable candidate. *)
Lemma first_viable_split type files (sources : list string) :
  Forall (fails type files) sources \/
  exists pre source post data,
    sources = pre ++ source :: post /\
    Forall (fails type files) pre /\
    probe type files source = inr data.
Proof.
  induction sources as [|c rest IH]; [left; constructor|].
  destruct (probe type files c) as [e|data] eqn:Hc.
  - destruct IH as [Hall|(pre & s & post & data & -> & Hpre & Hs)].
    + left. constructor; [exists e; exact Hc | exact Hall].
    + right. exists (c :: pre), s, post, data. split; [reflexivity|].
      split; [|exact Hs]. constructor; [exists e; exact Hc | exact Hpre].
  - right. exists [], c, rest, data. split; [reflexivity|]. split; [constructor | exact Hc].
Qed.

Lemma write_warnings_spec (s : WritableStream) (errors : list (string * Exn)) :
  forall st : State,
  let o := write_warnings s errors st in
  result o = inr tt /\ state o = st /\
  events o = map (EvStreamWrite s) (warning_lines errors).
Proof.
  induction errors as [|[source error] rest IH]; intros st; cbv zeta.
  - cbn. auto.
  - cbn [write_warnings]. rewrite bind_unfold. cbn.
    destruct (IH st) as (Hr & Hs & He). rewrite Hr, Hs, He. auto.
Qed.

Lemma stream_writes_app (s : WritableStream) (l1 l2 : list (Event PngOptions)) :
  stream_writes s (l1 ++ l2) = stream_writes s l1 ++ stream_writes s l2.
Proof. unfold stream_writes. apply omap_app. Qed.

Lemma stream_writes_probe (s : WritableStream) files (sources : list string) :
  stream_writes s (flat_map (probe_events (PngOptions := PngOptions) files) sources) = [].
Proof.
  induction sources as [|c rest IH]; [reflexivity|].
  cbn [flat_map]. rewrite stream_writes_app, IH, app_nil_r.
  unfold probe_events, stream_writes. destruct (files !! c); reflexivity.
Qed.


Lemma filter_readFile_probe files (sources : list string) :
  length (filter (fun e => is_readFile e = true)
            (flat_map (probe_events (PngOptions := PngOptions) files) sources))
  = length sources.
Proof.
  induction sources as [|c rest IH]; [reflexivity|].
  cbn [flat_map]. rewrite filter_app, length_app, IH.
  unfold probe_events. destruct (files !! c); reflexivity.
Qed.

(** [resolveSourceImage] when a candidate is viable. *)
Lemma resolveSourceImage_found type pre source post errstream data (st : State) :
  Forall (fails type (fs st)) pre ->
  probe type (fs st) source = inr data ->
  let o := resolveSourceImage type (pre ++ source :: post) errstream st in
  exists image,
    result o = inr (source, image) /\
    heap (state o) !! image = Some (mkSharp data None None) /\
    fs (state o) = fs st /\
    events o = flat_map (probe_events (fs st)) (pre ++ [source]).
Proof.
  intros Hpre Hp. cbv zeta. unfold resolveSourceImage. rewrite bind_unfold.
  destruct (resolve_loop_found type pre source post data [] st Hpre Hp)
    as (image & Hr & Hh & Hf & He).
  rewrite Hr. cbn. exists image. rewrite app_nil_r. auto.
Qed.

(** [resolveSourceImage] when no candidate is viable. *)
Lemma resolveSourceImage_fail type sources errstream (st : State) :
  Forall (fails type (fs st)) sources ->
  let o := resolveSourceImage type sources errstream st in
  result o = inl (EResolveSourceImage
                    ("Could not find suitable source image. Looked at: "
                       +:+ join ", " sources)
                    (validation_failures type (fs st) sources)) /\
  fs (state o) = fs st /\
  events o = flat_map (probe_events (fs st)) sources ++
             match errstream with
             | Some s => map (EvStreamWrite s)
                           (warning_lines (failures type (fs st) sources))
             | None => []
             end.
Proof.
  intros Hall. cbv zeta. unfold resolveSourceImage. rewrite bind_unfold.
  destruct (resolve_loop_fail type sources [] st Hall) as (Hr & Hf & He).
  rewrite Hr. cbn [app]. rewrite bind_unfold.
  destruct errstream as [s|].
  - destruct (write_warnings_spec s (failures type (fs st) sources)
                (state (resolve_loop type sources [] st))) as (Wr & Ws & We).
    rewrite Wr, Ws, We. cbn. rewrite He, Hf, app_nil_r. auto.
  - cbn. rewrite He, Hf, !app_nil_r. auto.
Qed.

(** A validation failure caught for a candidate names that candidate. *)
Lemma probe_validation_source type files source v :
  probe type files source = inl (EValidation v) -> source_of (details v) = source.
Proof.
  unfold probe. destruct (files !! source) as [data|]; [|discriminate].
  destruct (codec_metadata data) as [msg|[f w h]]; [discriminate|].
  rewrite check_cases.
  destruct (format_differs f "png"); [intros [= <-]; reflexivity|].
  destruct (falsy w || falsy h || lt_required w _ || lt_required h _);
    [intros [= <-]; reflexivity | discriminate].
Qed.

Lemma validation_failures_cons type files source rest :
  validation_failures type files (source :: rest) =
    match probe type files source with
    | inl (EValidation v) => v :: validation_failures type files rest
    | _ => validation_failures type files rest
    end.
Proof.
  unfold validation_failures, failures. cbn [omap list_omap].
  destruct (probe type files source) as [[v|m l|m]|data]; reflexivity.
Qed.

Lemma validation_failures_length type files (sources : list string) :
  (length (validation_failures type files sources) <= length sources)%nat.
Proof.
  induction sources as [|c rest IH]; [reflexivity|].
  rewrite validation_failures_cons.
  destruct (probe type files c) as [[v|m l|m]|data]; cbn; lia.
Qed.

Lemma validation_failures_sublist type files (sources : list string) :
  sublist (map (fun v => source_of (details v)) (validation_failures type files sources))
          sources.
Proof.
  induction sources as [|c rest IH]; [constructor|].
  rewrite validation_failures_cons.
  destruct (probe type files c) as [[v|m l|m]|data] eqn:Hc;
    try (apply sublist_cons; exact IH).
  cbn [map]. rewrite (probe_validation_source _ _ _ _ Hc). apply sublist_skip. exact IH.
Qed.

Lemma validation_failures_all type files (sources : list string) :
  Forall (fails_validation type files) sources ->
  map (fun v => source_of (details v)) (validation_failures type files sources) = sources.
Proof.
  induction 1 as [|c rest [v Hv] _ IH]; [reflexivity|].
  rewrite validation_failures_cons, Hv. cbn [map].
  rewrite (probe_validation_source _ _ _ _ Hv), IH. reflexivity.
Qed.

(** C2. For every resource type and candidate list, [resolveSourceImage]
    returns the first candidate, in the order given, whose read, decode and
    validation succeed, with a pipeline over that candidate's bytes; the
    collaborator calls it makes are the reads and decodes of the candidates
    up to and including that one, so no later candidate is read or decoded,
    whether or not it would pass. *)
Theorem resolve_returns_first_viable type pre source post errstream data (st : State) :
  Forall (fails type (fs st)) pre ->
  probe type (fs st) source = inr data ->
  let o := resolveSourceImage type (pre ++ source :: post) errstream st in
  exists image,
    result o = inr (source, image) /\
    heap (state o) !! image = Some (mkSharp data None None) /\
    fs (state o) = fs st /\
    events o = flat_map (probe_events (fs st)) (pre ++ [source]) /\
    length (filter (fun e => is_readFile e = true) (events o)) = S (length pre).
Proof.
  intros Hpre Hp. cbv zeta.
  destruct (resolveSourceImage_found type pre source post errstream data st Hpre Hp)
    as (image & Hr & Hh & Hf & He).
  exists image. repeat (split; [assumption|]).
  rewrite He, filter_readFile_probe, length_app. cbn. lia.
Qed.

(** X23. When every candidate fails in whatever way (or the list is empty),
    [resolveSourceImage] throws a [ResolveSourceImageError] whose carried
    list holds the [ValidationError]s among the per-candidate failures, in
    candidate order; a failure that is not a [ValidationError] (a file that
    cannot be read or decoded) is left out of it.  The list is therefore at
    most as long as the candidate list, and it has one entry per candidate,
    in order, when every candidate failed validation. *)
Theorem resolve_all_fail_error type sources errstream (st : State) :
  Forall (fails type (fs st)) sources ->
  let o := resolveSourceImage type sources errstream st in
  let carried := validation_failures type (fs st) sources in
  result o = inl (EResolveSourceImage
                    ("Could not find suitable source image. Looked at: "
                       +:+ join ", " sources) carried) /\
  (length carried <= length sources)%nat /\
  sublist (map (fun v => source_of (details v)) carried) sources /\
  (Forall (fails_validation type (fs st)) sources ->
   length carried = length sources /\
   map (fun v => source_of (details v)) carried = sources).
Proof.
  intros Hall. cbv zeta.
  destruct (resolveSourceImage_fail type sources errstream st Hall) as (Hr & _ & _).
  split; [exact Hr|]. split; [apply validation_failures_length|].
  split; [apply validation_failures_sublist|].
  intros Hv. pose proof (validation_failures_all _ _ _ Hv) as E.
  split; [|exact E]. rewrite <- E at 2. now rewrite length_map.
Qed.

Lemma fails_validation_fails type files (sources : list string) :
  Forall (fails_validation type files) sources -> Forall (fails type files) sources.
Proof.
  induction 1 as [|c rest [v Hv] _ IH]; constructor; [|exact IH].
  exists (EValidation v). exact Hv.
Qed.

Lemma validation_failures_Forall2 type files (sources : list string) :
  Forall (fails_validation type files) sources ->
  Forall2 (fun source v => probe type files source = inl (EValidation v))
          sources (validation_failures type files sources).
Proof.
  induction 1 as [|c rest [v Hv] _ IH]; [constructor|].
  rewrite validation_failures_cons, Hv. constructor; assumption.
Qed.

(** C3. When every candidate in the list fails validation (or the list is
    empty), [resolveSourceImage] throws a [ResolveSourceImageError] whose
    carried failure list has one entry per candidate: its length is the
    number of candidates, and its entries are the candidates' validation
    failures in candidate order, the i-th entry being the failure raised for
    the i-th candidate and naming it. *)
Theorem resolve_all_fail_validation type sources errstream (st : State) :
  Forall (fails_validation type (fs st)) sources ->
  let o := resolveSourceImage type sources errstream st in
  exists carried,
    result o = inl (EResolveSourceImage
                      ("Could not find suitable source image. Looked at: "
                         +:+ join ", " sources) carried) /\
    length carried = length sources /\
    Forall2 (fun source v => probe type (fs st) source = inl (EValidation v))
            sources carried /\
    map (fun v => source_of (details v)) carried = sources.
Proof.
  intros Hv. cbv zeta.
  destruct (resolveSourceImage_fail type sources errstream st
              (fails_validation_fails _ _ _ Hv)) as (Hr & _ & _).
  pose proof (validation_failures_Forall2 _ _ _ Hv) as H2.
  exists (validation_failures type (fs st) sources).
  split; [exact Hr|]. split; [symmetry; eapply Forall2_length; exact H2|].
  split; [exact H2|]. now apply validation_failures_all.
Qed.


End Resolver.

(** ** The image generator *)

Section Generator.

Context {PngOptions : Type} {H : Collaborators PngOptions}.

Local Abbreviation State := (State PngOptions).
Local Abbreviation Sharp := (Sharp PngOptions).

Lemma transformed_again (i i' : ImageSchema) (options : option PngOptions) (p : Sharp) :
  transformed i options (transformed i' options p) = transformed i options p.
Proof. unfold transformed. cbn. destruct options; reflexivity. Qed.

(** What one call of [generateImage] does, for a live pipeline object. *)
Lemma generateImage_spec image (src : SharpRef) dest options (st : State) :
  (src < length (heap st))%nat ->
  let o := generateImage image src dest options st in
  let q := transformed image options (heap st !!! src) in
  length (heap (state o)) = length (heap st) /\
  heap (state o) !!! src = q /\
  events o = EvToBuffer q ::
             match codec_toBuffer q with
             | inr data => [EvWriteFile dest data]
             | inl _ => []
             end /\
  result o = match codec_toBuffer q with
             | inl msg => inl (EOther msg)
             | inr data =>
                 if fs_writable dest then inr tt
                 else inl (EOther ("EACCES: permission denied, open '" +:+ dest +:+ "'"))
             end /\
  fs (state o) = match codec_toBuffer q with
                 | inr data => if fs_writable dest then <[dest := data]> (fs st) else fs st
                 | inl _ => fs st
                 end.
Proof.
  intros Hlive. cbv zeta.
  unfold generateImage, transformImage. rewrite bind_unfold. cbn [resize result state events].
  rewrite bind_unfold.
  destruct options as [o|].
  - rewrite bind_unfold. cbn [png result state events heap fs].
    rewrite list_alter_alter_eq.
    unfold toBuffer. cbn [result state events heap fs].
    rewrite list_lookup_total_alter_eq by exact Hlive.
    unfold compose. cbn [input resizeTo pngOptions].
    match goal with |- context [codec_toBuffer ?x] =>
      change x with (transformed image (Some o) (heap st !!! src)) end.
    set (q := transformed image (Some o) (heap st !!! src)).
    destruct (codec_toBuffer q) as [msg|data]; cbn.
    + rewrite length_alter, list_lookup_total_alter_eq by exact Hlive. auto.
    + unfold writeFile. destruct (fs_writable dest); cbn;
        rewrite length_alter, list_lookup_total_alter_eq by exact Hlive; auto.
  - unfold toBuffer. cbn [result state events heap fs].
    rewrite list_lookup_total_alter_eq by exact Hlive.
    match goal with |- context [codec_toBuffer ?x] =>
      change x with (transformed image None (heap st !!! src)) end.
    set (q := transformed image None (heap st !!! src)).
    destruct (codec_toBuffer q) as [msg|data]; cbn.
    + rewrite length_alter, list_lookup_total_alter_eq by exact Hlive. auto.
    + unfold writeFile. destruct (fs_writable dest); cbn;
        rewrite length_alter, list_lookup_total_alter_eq by exact Hlive; auto.
Qed.

(** C9. A call of [generateImage] on a live pipeline makes one [writeFile]
    call, with the destination path and the whole buffer that [toBuffer]
    resolved to, and after a successful write the destination file holds
    exactly that buffer; if the encoding fails, the call fails with the
    encoder's error, no [writeFile] call is made and the files are as
    before. *)
Theorem generateImage_single_write image (src : SharpRef) dest options (st : State) :
  (src < length (heap st))%nat ->
  let o := generateImage image src dest options st in
  let q := transformed image options (heap st !!! src) in
  match codec_toBuffer q with
  | inr data =>
      events o = [EvToBuffer q; EvWriteFile dest data] /\
      file_writes (events o) = [(dest, data)] /\
      length (filter (fun e => is_writeFile e = true) (events o)) = 1%nat /\
      (fs_writable dest = true ->
       result o = inr tt /\
       fs (state o) = <[dest := data]> (fs st) /\
       fs (state o) !! dest = Some data)
  | inl msg =>
      result o = inl (EOther msg) /\
      file_writes (events o) = [] /\
      fs (state o) = fs st
  end.
Proof.
  intros Hlive. cbv zeta.
  destruct (generateImage_spec image src dest options st Hlive)
    as (_ & _ & He & Hr & Hf).
  destruct (codec_toBuffer (transformed image options (heap st !!! src)))
    as [msg|data].
  - rewrite He, Hr, Hf. auto.
  - rewrite He. repeat (split; [reflexivity|]).
    intros Hw. rewrite Hw in Hr, Hf. rewrite Hr, Hf.
    repeat (split; [reflexivity|]). apply lookup_insert_eq.
Qed.

End Generator.

(** ** The Platform Runner *)

Section RunnerFacts.

Context {PngOptions : Type} {H : Collaborators PngOptions}.
Variable outputDir : string -> Platform -> ResourceType -> string.
Variable effectiveOptions : option PngOptions -> option PngOptions -> option PngOptions.

Local Abbreviation State := (State PngOptions).
Local Abbreviation Sharp := (Sharp PngOptions).
Local Abbreviation Event := (Event PngOptions).

(** Generation of a list of catalog entries when the encoder accepts the
    source image and every destination is writable. *)
Lemma generate_all_ok dir src (image : SharpRef) options (p : Sharp) specs :
  (forall q : Sharp, input q = input p -> exists out, codec_toBuffer q = inr out) ->
  (forall path, fs_writable path = true) ->
  forall st : State,
  (image < length (heap st))%nat ->
  (forall i, transformed i options (heap st !!! image) = transformed i options p) ->
  let o := generate_all dir src image options specs st in
  result o = inr (map (fun s => mkGeneratedImage (dir +:+ "/" +:+ name s) s src) specs) /\
  events o = flat_map (generate_events dir options p) specs.
Proof.
  intros Henc Hwr. induction specs as [|s rest IH]; intros st Hlive Hbase; cbv zeta.
  - cbn. auto.
  - cbn [generate_all]. rewrite bind_unfold.
    destruct (generateImage_spec (schema_of s) image (dir +:+ "/" +:+ name s) options
                st Hlive) as (Hlen & Hpipe & He & Hr & _).
    rewrite Hbase in Hpipe, He, Hr.
    destruct (Henc (transformed (schema_of s) options p) eq_refl) as [out Hout].
    rewrite Hout, Hwr in Hr. rewrite Hout in He.
    rewrite Hr, He. rewrite bind_unfold.
    destruct (IH (state (generateImage (schema_of s) image (dir +:+ "/" +:+ name s)
                           options st))) as (IHr & IHe).
    + rewrite Hlen. exact Hlive.
    + intros i. rewrite Hpipe. apply transformed_again.
    + rewrite IHr, IHe. cbn -[generate_events]. rewrite app_nil_r.
      split; [reflexivity|]. unfold generate_events at 2, encoded.
      rewrite Hout. reflexivity.
Qed.

Lemma probe_accepts type files source data md :
  files !! source = Some data ->
  codec_metadata data = inr md ->
  check type source md = inr tt ->
  probe type files source = inr data.
Proof. intros Hf Hm Hc. unfold probe. now rewrite Hf, Hm, Hc. Qed.

Lemma ensureDir_unfold path (st : State) :
  ensureDir path st = mkOutcome (inr tt) st [EvEnsureDir path].
Proof. reflexivity. Qed.

(** One requested type whose only candidate is viable, with an encoder that
    accepts the source and writable destinations. *)
Lemma runType_ok platform root type src own shared data (st : State) :
  probe type (fs st) src = inr data ->
  (forall q : Sharp, input q = data -> exists out, codec_toBuffer q = inr out) ->
  (forall path, fs_writable path = true) ->
  let o := runType outputDir effectiveOptions platform root type
             (mkTypeOptions [src] own) shared st in
  let dir := outputDir root platform type in
  result o = inr (map (fun s => mkGeneratedImage (dir +:+ "/" +:+ name s) s src)
                    (images (RESOURCES platform type))) /\
  events o = EvEnsureDir dir :: EvReadFile src :: EvMetadata data ::
             flat_map (generate_events dir (effectiveOptions own shared)
                         (mkSharp data None None))
               (images (RESOURCES platform type)).
Proof.
  intros Hp Henc Hwr. cbv zeta. unfold runType.
  rewrite bind_unfold, ensureDir_unfold. cbn [result state events sources encodeOptions].
  rewrite bind_unfold.
  destruct (resolveSourceImage_found type [] src [] None data st (Forall_nil_2 _) Hp)
    as (image & Hr & Hh & Hf & He).
  cbn [app] in Hr, Hh, Hf, He. rewrite Hr, He. cbn [fst snd].
  destruct (generate_all_ok (outputDir root platform type) src image
              (effectiveOptions own shared) (mkSharp data None None)
              (images (RESOURCES platform type)) Henc Hwr
              (state (resolveSourceImage type [src] None st))) as (Gr & Ge).
  - eapply lookup_lt_Some. exact Hh.
  - intros i. now rewrite (list_lookup_total_correct _ _ _ Hh).
  - rewrite Gr, Ge. cbn -[generate_events]. rewrite app_nil_r.
    unfold probe_events. unfold probe in Hp.
    destruct (fs st !! src) as [data'|]; [|discriminate].
    destruct (codec_metadata data') as [msg|md]; [discriminate|].
    destruct (check type src md); [discriminate|]. injection Hp as ->. auto.
Qed.

(** C7. The Platform Runner for Android with icons alone requested and a
    valid 1024x1024 PNG as the only source (the encoder accepting that image,
    the destinations writable) reads and decodes the source once, which is
    one call of the Source Resolver, encodes and writes once per catalog
    entry, which is one call of the Image Generator for each, and returns
    six generated images, one per Android icon density in catalog order,
    with the six distinct file names of the catalog. *)
Theorem run_android_icon root src own shared data (st : State) :
  fs st !! src = Some data ->
  codec_metadata data = inr (mkMetadata (Some "png") (Some 1024) (Some 1024)) ->
  (forall q : Sharp, input q = data -> exists out, codec_toBuffer q = inr out) ->
  (forall path, fs_writable path = true) ->
  let o := run outputDir effectiveOptions ANDROID root
             [(ICON, mkTypeOptions [src] own)] shared st in
  let dir := outputDir root ANDROID ICON in
  exists imgs,
    result o = inr imgs /\
    length imgs = 6%nat /\
    map spec imgs = images (RESOURCES ANDROID ICON) /\
    map (fun g => density (spec g)) imgs =
      [Some LDPI; Some MDPI; Some HDPI; Some XHDPI; Some XXHDPI; Some XXXHDPI] /\
    map (fun g => name (spec g)) imgs =
      ["drawable-ldpi-icon.png"; "drawable-mdpi-icon.png"; "drawable-hdpi-icon.png";
       "drawable-xhdpi-icon.png"; "drawable-xxhdpi-icon.png";
       "drawable-xxxhdpi-icon.png"] /\
    NoDup (map (fun g => name (spec g)) imgs) /\
    Forall (fun g => sourcePath g = src /\
                     outputPath g = dir +:+ "/" +:+ name (spec g)) imgs /\
    events o = EvEnsureDir dir :: EvReadFile src :: EvMetadata data ::
               flat_map (generate_events dir (effectiveOptions own shared)
                           (mkSharp data None None))
                 (images (RESOURCES ANDROID ICON)) /\
    length (filter (fun e => is_readFile e = true) (events o)) = 1%nat /\
    length (filter (fun e => is_metadata e = true) (events o)) = 1%nat /\
    length (filter (fun e => is_toBuffer e = true) (events o)) = 6%nat /\
    length (filter (fun e => is_writeFile e = true) (events o)) = 6%nat.
Proof.
  intros Hfile Hmeta Henc Hwr. cbv zeta.
  assert (probe ICON (fs st) src = inr data) as Hp.
  { eapply probe_accepts; [exact Hfile | exact Hmeta | reflexivity]. }
  destruct (runType_ok ANDROID root ICON src own shared data st Hp Henc Hwr)
    as (Hr & He).
  cbn [run]. rewrite bind_unfold, Hr, He. cbn -[generate_events].
  eexists. split; [reflexivity|].
  repeat (split; [reflexivity|]).
  split.
  { apply (bool_decide_unpack _). vm_compute. exact I. }
  split.
  { repeat constructor. }
  repeat (split; [reflexivity|]). reflexivity.
Qed.

(** *** Files after a run, and runs from two states *)

Lemma apply_events_app (l1 l2 : list Event) files :
  apply_events (l1 ++ l2) files = apply_events l2 (apply_events l1 files).
Proof. unfold apply_events. apply foldl_app. Qed.

Lemma apply_event_lookup files (e : Event) path :
  apply_event files e !! path =
    match e with
    | EvWriteFile path' data =>
        if fs_writable path' && String.eqb path' path then Some data else files !! path
    | _ => files !! path
    end.
Proof.
  destruct e as [| | |path' data| |]; try reflexivity.
  cbn [apply_event]. destruct (fs_writable path'); [|reflexivity].
  cbn [andb]. destruct (String.eqb path' path) eqn:E.
  - apply String.eqb_eq in E as ->. apply lookup_insert_eq.
  - apply String.eqb_neq in E. now apply lookup_insert_ne.
Qed.

(** A file after a sequence of calls holds the last buffer written to it,
    or what it held before when none was. *)
Lemma apply_events_lookup (evs : list Event) : forall files path,
  apply_events evs files !! path =
    match last_write path evs with
    | Some data => Some data
    | None => files !! path
    end.
Proof.
  induction evs as [|e rest IH]; intros files path; [reflexivity|].
  change (apply_events (e :: rest) files)
    with (apply_events rest (apply_event files e)).
  rewrite IH. cbn [last_write].
  destruct (last_write path rest); [reflexivity|].
  rewrite apply_event_lookup.
  destruct e as [| | |path' data| |]; try reflexivity.
  destruct (fs_writable path' && String.eqb path' path); reflexivity.
Qed.

Lemma apply_events_idem (evs : list Event) files :
  apply_events evs (apply_events evs files) = apply_events evs files.
Proof.
  apply map_eq. intros path. rewrite !apply_events_lookup.
  destruct (last_write path evs); reflexivity.
Qed.

Lemma last_write_of_write (evs : list Event) path data :
  (path, data) ∈ file_writes evs -> fs_writable path = true ->
  exists data', last_write path evs = Some data'.
Proof.
  induction evs as [|e rest IH]; intros Hin Hw.
  - cbn in Hin. now apply elem_of_nil in Hin.
  - cbn [last_write].
    destruct (last_write path rest) as [d|] eqn:Hl; [eauto|].
    destruct e as [| | |path' data'| |]; cbn in Hin;
      try (destruct (IH Hin Hw) as [? ?]; discriminate).
    apply elem_of_cons in Hin as [[= <- <-]|Hin].
    + rewrite Hw, String.eqb_refl. cbn. eauto.
    + destruct (IH Hin Hw) as [? ?]; discriminate.
Qed.

Lemma agree_probe type (f1 f2 : gmap string Buffer) (l : list string) :
  (forall c, c ∈ l -> f1 !! c = f2 !! c) ->
  flat_map (probe_events (PngOptions := PngOptions) f1) l = flat_map (probe_events f2) l /\
  failures type f1 l = failures type f2 l /\
  Forall (fun c => probe type f1 c = probe type f2 c) l.
Proof.
  induction l as [|c rest IH]; intros Hag; [repeat split; constructor|].
  destruct IH as (IH1 & IH2 & IH3).
  { intros c' Hc'. apply Hag. apply elem_of_cons. now right. }
  assert (f1 !! c = f2 !! c) as Hc by (apply Hag; apply elem_of_cons; now left).
  assert (probe type f1 c = probe type f2 c) as Hp by (unfold probe; now rewrite Hc).
  split; [|split].
  - cbn [flat_map]. rewrite IH1. unfold probe_events. now rewrite Hc.
  - unfold failures in *. cbn [omap list_omap]. rewrite Hp.
    change (list_omap ?f ?l) with (omap f l). now rewrite IH2.
  - constructor; assumption.
Qed.

(** The resolver from two states whose files agree on the candidates: the
    same calls, the same failure or the same candidate, and in the second
    case two fresh pipelines over the same bytes. *)
Lemma resolveSourceImage_rel type sources errstream (st1 st2 : State) :
  (forall c, c ∈ sources -> fs st1 !! c = fs st2 !! c) ->
  let o1 := resolveSourceImage type sources errstream st1 in
  let o2 := resolveSourceImage type sources errstream st2 in
  events o1 = events o2 /\
  fs (state o1) = fs st1 /\ fs (state o2) = fs st2 /\
  ((exists e, result o1 = inl e /\ result o2 = inl e) \/
   (exists c i1 i2 data,
      result o1 = inr (c, i1) /\ result o2 = inr (c, i2) /\
      heap (state o1) !! i1 = Some (mkSharp data None None) /\
      heap (state o2) !! i2 = Some (mkSharp data None None))).
Proof.
  intros Hag. cbv zeta.
  destruct (agree_probe type _ _ _ Hag) as (Hev & Hfl & Hpr).
  rewrite Forall_forall in Hpr.
  destruct (first_viable_split type (fs st1) sources)
    as [Hall|(pre & c & post & data & -> & Hpre & Hc)].
  - assert (Forall (fails type (fs st2)) sources) as Hall2.
    { rewrite Forall_forall in Hall |- *. intros c Hc.
      destruct (Hall c Hc) as [e He]. exists e. now rewrite <- (Hpr c Hc). }
    destruct (resolveSourceImage_fail type sources errstream st1 Hall) as (R1 & F1 & E1).
    destruct (resolveSourceImage_fail type sources errstream st2 Hall2) as (R2 & F2 & E2).
    rewrite R1, R2, E1, E2, F1, F2. unfold validation_failures.
    rewrite Hev, Hfl. repeat (split; [reflexivity|]). left. eauto.
  - assert (Forall (fails type (fs st2)) pre) as Hpre2.
    { rewrite Forall_forall in Hpre |- *. intros c' Hc'.
      destruct (Hpre c' Hc') as [e He]. exists e.
      rewrite <- (Hpr c'); [exact He|]. apply elem_of_app. now left. }
    assert (probe type (fs st2) c = inr data) as Hc2.
    { rewrite <- (Hpr c); [exact Hc|]. apply elem_of_app. right. apply elem_of_cons. now left. }
    destruct (resolveSourceImage_found type pre c post errstream data st1 Hpre Hc)
      as (i1 & R1 & H1 & F1 & E1).
    destruct (resolveSourceImage_found type pre c post errstream data st2 Hpre2 Hc2)
      as (i2 & R2 & H2 & F2 & E2).
    rewrite E1, E2, F1, F2.
    destruct (agree_probe type (fs st1) (fs st2) (pre ++ [c])) as (Hev' & _ & _).
    { intros c' Hc'. apply Hag. apply elem_of_app in Hc' as [Hc'|Hc'].
      - apply elem_of_app. now left.
      - apply elem_of_app. right. apply list_elem_of_singleton in Hc' as ->.
        apply elem_of_cons. now left. }
    rewrite Hev'. repeat (split; [reflexivity|]). right.
    exists c, i1, i2, data. auto.
Qed.

(** *** The files follow the writes

    Every computation of the pipeline leaves the files as its own
    [writeFile] calls made them. *)

Lemma tracks_ret {A} (a : A) : tracks (mret a).
Proof. intros st. reflexivity. Qed.

Lemma tracks_throw {A} (e : Exn) : tracks (throw (A := A) e).
Proof. intros st. reflexivity. Qed.

Lemma tracks_bind {A B} (m : M PngOptions A) (f : A -> M PngOptions B) :
  tracks m -> (forall a, tracks (f a)) -> tracks (m ≫= f).
Proof.
  intros Hm Hf st. rewrite bind_unfold.
  destruct (result (m st)) as [e|a]; cbn [state events]; [apply Hm|].
  rewrite apply_events_app, <- Hm. apply Hf.
Qed.

Lemma tracks_try_catch {A} (body : M PngOptions A) (handler : Exn -> M PngOptions A) :
  tracks body -> (forall e, tracks (handler e)) -> tracks (try_catch body handler).
Proof.
  intros Hm Hh st. rewrite try_catch_unfold.
  destruct (result (body st)) as [e|a]; cbn [state events]; [|apply Hm].
  rewrite apply_events_app, <- Hm. apply Hh.
Qed.

Lemma tracks_readFile path : tracks (readFile path).
Proof. intros st. reflexivity. Qed.

Lemma tracks_writeFile path data : tracks (writeFile path data).
Proof.
  intros st. unfold writeFile, apply_events.
  destruct (fs_writable path) eqn:E; cbn; now rewrite ?E.
Qed.

Lemma tracks_stream_write s chunk : tracks (stream_write s chunk).
Proof. intros st. reflexivity. Qed.

Lemma tracks_ensureDir path : tracks (ensureDir path).
Proof. intros st. reflexivity. Qed.

Lemma tracks_sharp data : tracks (sharp data).
Proof. intros st. reflexivity. Qed.

Lemma tracks_metadata pipeline : tracks (metadata pipeline).
Proof. intros st. reflexivity. Qed.

Lemma tracks_resize pipeline w h : tracks (resize pipeline w h).
Proof. intros st. reflexivity. Qed.

Lemma tracks_png pipeline o : tracks (png pipeline o).
Proof. intros st. reflexivity. Qed.

Lemma tracks_toBuffer pipeline : tracks (toBuffer pipeline).
Proof. intros st. reflexivity. Qed.

Lemma tracks_lift {A} (r : Exn + A) : tracks (lift r).
Proof. destruct r; [apply tracks_throw | apply tracks_ret]. Qed.

Lemma tracks_try_source type source : tracks (try_source type source).
Proof.
  unfold try_source, RESOURCE_VALIDATORS.
  apply tracks_bind; [apply tracks_readFile|]. intros data.
  apply tracks_bind; [apply tracks_sharp|]. intros image.
  apply tracks_bind; [|intros; apply tracks_ret].
  apply tracks_bind; [apply tracks_metadata | intros; apply tracks_lift].
Qed.

Lemma tracks_resolve_loop type sources : forall errors,
  tracks (resolve_loop type sources errors).
Proof.
  induction sources as [|c rest IH]; intros errors; cbn [resolve_loop].
  - apply tracks_ret.
  - apply tracks_try_catch; [|intros; apply IH].
    apply tracks_bind; [apply tracks_try_source | intros; apply tracks_ret].
Qed.

Lemma tracks_write_warnings s errors : tracks (write_warnings s errors).
Proof.
  induction errors as [|[c e] rest IH]; cbn [write_warnings].
  - apply tracks_ret.
  - apply tracks_bind; [apply tracks_stream_write | intros; apply IH].
Qed.

Lemma tracks_resolveSourceImage type sources errstream :
  tracks (resolveSourceImage type sources errstream).
Proof.
  unfold resolveSourceImage.
  apply tracks_bind; [apply tracks_resolve_loop|]. intros [found|errors].
  - apply tracks_ret.
  - apply tracks_bind; [|intros; apply tracks_throw].
    destruct errstream; [apply tracks_write_warnings | apply tracks_ret].
Qed.

Lemma tracks_generateImage image src dest options :
  tracks (generateImage image src dest options).
Proof.
  unfold generateImage, transformImage.
  apply tracks_bind; [apply tracks_resize|]. intros pipeline.
  apply tracks_bind; [|intros; apply tracks_writeFile].
  destruct options.
  - apply tracks_bind; [apply tracks_png | intros; apply tracks_toBuffer].
  - apply tracks_toBuffer.
Qed.

Lemma tracks_generate_all dir src image options specs :
  tracks (generate_all dir src image options specs).
Proof.
  induction specs as [|s rest IH]; cbn [generate_all].
  - apply tracks_ret.
  - apply tracks_bind; [apply tracks_generateImage|]. intros _.
    apply tracks_bind; [apply IH | intros; apply tracks_ret].
Qed.

Lemma tracks_runType platform root type o shared :
  tracks (runType outputDir effectiveOptions platform root type o shared).
Proof.
  unfold runType.
  apply tracks_bind; [apply tracks_ensureDir|]. intros _.
  apply tracks_bind; [apply tracks_resolveSourceImage|]. intros resolved.
  apply tracks_generate_all.
Qed.

Lemma tracks_run platform root requested shared :
  tracks (run outputDir effectiveOptions platform root requested shared).
Proof.
  induction requested as [|[type o] rest IH]; cbn [run].
  - apply tracks_ret.
  - apply tracks_bind; [apply tracks_runType|]. intros imgs.
    apply tracks_bind; [apply IH | intros; apply tracks_ret].
Qed.

(** *** Runs from two states *)

Lemma generateImage_rel image dest options (st1 st2 : State) (r1 r2 : SharpRef) :
  (r1 < length (heap st1))%nat -> (r2 < length (heap st2))%nat ->
  heap st1 !!! r1 = heap st2 !!! r2 ->
  let o1 := generateImage image r1 dest options st1 in
  let o2 := generateImage image r2 dest options st2 in
  result o1 = result o2 /\ events o1 = events o2 /\
  (r1 < length (heap (state o1)))%nat /\ (r2 < length (heap (state o2)))%nat /\
  heap (state o1) !!! r1 = heap (state o2) !!! r2.
Proof.
  intros L1 L2 Heq. cbv zeta.
  destruct (generateImage_spec image r1 dest options st1 L1) as (A1 & B1 & C1 & D1 & _).
  destruct (generateImage_spec image r2 dest options st2 L2) as (A2 & B2 & C2 & D2 & _).
  rewrite A1, A2, B1, B2, C1, C2, D1, D2, Heq. auto.
Qed.

Lemma generate_all_rel dir src options specs : forall (st1 st2 : State) (r1 r2 : SharpRef),
  (r1 < length (heap st1))%nat -> (r2 < length (heap st2))%nat ->
  heap st1 !!! r1 = heap st2 !!! r2 ->
  let o1 := generate_all dir src r1 options specs st1 in
  let o2 := generate_all dir src r2 options specs st2 in
  result o1 = result o2 /\ events o1 = events o2.
Proof.
  induction specs as [|s rest IH]; intros st1 st2 r1 r2 L1 L2 Heq; cbv zeta.
  - cbn. auto.
  - cbn [generate_all]. rewrite !bind_unfold.
    destruct (generateImage_rel (schema_of s) (dir +:+ "/" +:+ name s) options
                st1 st2 r1 r2 L1 L2 Heq) as (R & E & L1' & L2' & Heq').
    rewrite <- R, <- E.
    destruct (result (generateImage (schema_of s) r1 (dir +:+ "/" +:+ name s)
                        options st1)) as [e|[]]; cbn [result events state]; [auto|].
    rewrite ?bind_unfold.
    destruct (IH _ _ r1 r2 L1' L2' Heq') as (IR & IE).
    rewrite <- IR, <- IE.
    destruct (result (generate_all dir src r1 options rest _)); cbn; auto.
Qed.

Lemma runType_rel platform root type o shared (st1 st2 : State) :
  (forall c, c ∈ sources o -> fs st1 !! c = fs st2 !! c) ->
  let o1 := runType outputDir effectiveOptions platform root type o shared st1 in
  let o2 := runType outputDir effectiveOptions platform root type o shared st2 in
  result o1 = result o2 /\ events o1 = events o2.
Proof.
  intros Hag. cbv zeta. unfold runType.
  rewrite !bind_unfold, !ensureDir_unfold. cbn [result state events].
  rewrite ?bind_unfold.
  destruct (resolveSourceImage_rel type (sources o) None st1 st2 Hag)
    as (E & _ & _ & [(e & R1 & R2)|(c & i1 & i2 & data & R1 & R2 & H1 & H2)]).
  - rewrite R1, R2, E. auto.
  - rewrite R1, R2, E. cbn [fst snd].
    destruct (generate_all_rel (outputDir root platform type) c
                (effectiveOptions (encodeOptions o) shared)
                (images (RESOURCES platform type))
                (state (resolveSourceImage type (sources o) None st1))
                (state (resolveSourceImage type (sources o) None st2)) i1 i2)
      as (GR & GE).
    + eapply lookup_lt_Some; exact H1.
    + eapply lookup_lt_Some; exact H2.
    + rewrite (list_lookup_total_correct _ _ _ H1), (list_lookup_total_correct _ _ _ H2).
      reflexivity.
    + rewrite GR, GE. auto.
Qed.

Lemma run_rel platform root shared requested : forall st1 st2 : State,
  (forall c, c ∈ all_sources requested -> fs st1 !! c = fs st2 !! c) ->
  let o1 := run outputDir effectiveOptions platform root requested shared st1 in
  let o2 := run outputDir effectiveOptions platform root requested shared st2 in
  result o1 = result o2 /\ events o1 = events o2.
Proof.
  induction requested as [|[type o] rest IH]; intros st1 st2 Hag; cbv zeta.
  - cbn. auto.
  - cbn [run]. rewrite !bind_unfold.
    destruct (runType_rel platform root type o shared st1 st2) as (R & E).
    { intros c Hc. apply Hag. unfold all_sources. cbn [flat_map snd].
      apply elem_of_app. now left. }
    rewrite <- R, <- E.
    destruct (result (runType outputDir effectiveOptions platform root type o shared st1))
      as [e|imgs]; cbn [result events state]; [auto|].
    rewrite ?bind_unfold.
    destruct (IH (state (runType outputDir effectiveOptions platform root type o shared st1))
                 (state (runType outputDir effectiveOptions platform root type o shared st2)))
      as (IR & IE).
    { intros c Hc. rewrite !tracks_runType, <- E, !apply_events_lookup.
      destruct (last_write c _); [reflexivity|].
      apply Hag. unfold all_sources. cbn [flat_map snd]. apply elem_of_app. now right. }
    rewrite <- IR, <- IE.
    destruct (result (run outputDir effectiveOptions platform root rest shared _)); cbn; auto.
Qed.

(** C8. The pipeline is deterministic.  Two runs of the Platform Runner with
    the same platform, request, options and collaborators, from states whose
    files agree on the candidate sources (whatever else differs: other
    files, earlier outputs, pipeline objects), return the same result, make
    the same collaborator calls with the same bytes, and leave every file
    they wrote with the same contents.  A second run started after the
    first, when the first overwrote no source, repeats its result and calls
    and leaves the files as they were.  [generateImage] on the same schema,
    destination and options, for pipelines in the same state, makes the same
    calls and writes the same bytes, also when called again on the object
    its first call updated. *)
Theorem pipeline_deterministic platform root requested shared (st1 st2 : State) :
  (forall c, c ∈ all_sources requested -> fs st1 !! c = fs st2 !! c) ->
  let o1 := run outputDir effectiveOptions platform root requested shared st1 in
  let o2 := run outputDir effectiveOptions platform root requested shared st2 in
  result o1 = result o2 /\
  events o1 = events o2 /\
  (forall path data,
     (path, data) ∈ file_writes (events o1) -> fs_writable path = true ->
     fs (state o1) !! path = fs (state o2) !! path /\
     exists data', fs (state o1) !! path = Some data') /\
  ((forall c, c ∈ all_sources requested -> last_write c (events o1) = None) ->
   let o3 := run outputDir effectiveOptions platform root requested shared (state o1) in
   result o3 = result o1 /\ events o3 = events o1 /\ fs (state o3) = fs (state o1)) /\
  (forall image dest options (sa sb : State) (ra rb : SharpRef),
     (ra < length (heap sa))%nat -> (rb < length (heap sb))%nat ->
     heap sa !!! ra = heap sb !!! rb ->
     let ga := generateImage image ra dest options sa in
     let gb := generateImage image rb dest options sb in
     result ga = result gb /\ events ga = events gb /\
     file_writes (events ga) = file_writes (events gb)) /\
  (forall image dest options (sa : State) (ra : SharpRef),
     (ra < length (heap sa))%nat ->
     let ga := generateImage image ra dest options sa in
     let gb := generateImage image ra dest options (state ga) in
     result gb = result ga /\ events gb = events ga).
Proof.
  intros Hag. cbv zeta.
  destruct (run_rel platform root shared requested st1 st2 Hag) as (R & E).
  split; [exact R|]. split; [exact E|]. split; [|split; [|split]].
  - intros path data Hin Hw.
    rewrite !tracks_run, <- E, !apply_events_lookup.
    destruct (last_write_of_write _ _ _ Hin Hw) as [data' ->]. eauto.
  - intros Hsrc.
    destruct (run_rel platform root shared requested st1
                (state (run outputDir effectiveOptions platform root requested shared st1)))
      as (R3 & E3).
    { intros c Hc. rewrite tracks_run, apply_events_lookup, (Hsrc c Hc). reflexivity. }
    split; [now rewrite R3|]. split; [now rewrite E3|].
    rewrite (tracks_run platform root requested shared
               (state (run outputDir effectiveOptions platform root requested shared st1))).
    rewrite <- E3, (tracks_run platform root requested shared st1).
    apply apply_events_idem.
  - intros image dest options sa sb ra rb La Lb Heq.
    destruct (generateImage_rel image dest options sa sb ra rb La Lb Heq)
      as (Rg & Eg & _).
    split; [exact Rg|]. split; [exact Eg|]. now rewrite Eg.
  - intros image dest options sa ra La.
    destruct (generateImage_spec image ra dest options sa La) as (A1 & B1 & C1 & D1 & _).
    assert (ra < length (heap (state (generateImage image ra dest options sa))))%nat
      as La' by (rewrite A1; exact La).
    destruct (generateImage_spec image ra dest options _ La') as (_ & _ & C2 & D2 & _).
    rewrite B1, transformed_again in C2, D2.
    rewrite C1, C2, D1, D2. auto.
Qed.

End RunnerFacts.

(** *** The resolver on concrete candidates *)

Example fixture_probe_a :
  probe (H := Fixture.collaborators) ICON Fixture.three_files "a.jpg" =
    inl (EValidation (mkValidationError (bad_format_message ICON (Some "jpeg"))
                        (BadFormat "a.jpg" ICON (Some "jpeg") "png"))).
Proof. vm_compute. reflexivity. Qed.

Example fixture_probe_b :
  probe (H := Fixture.collaborators) ICON Fixture.three_files "b.png" = inr Fixture.png1024.
Proof. vm_compute. reflexivity. Qed.

Example fixture_probe_c :
  probe (H := Fixture.collaborators) ICON Fixture.three_files "c.png" = inr Fixture.png1024.
Proof. vm_compute. reflexivity. Qed.

Lemma resolve_returns_first_viable_witness :
  Forall (fails (H := Fixture.collaborators) ICON (fs Fixture.three_state)) ["a.jpg"] /\
  probe (H := Fixture.collaborators) ICON (fs Fixture.three_state) "b.png" = inr Fixture.png1024 /\
  exists image,
    result (resolveSourceImage (H := Fixture.collaborators) ICON
              (["a.jpg"] ++ "b.png" :: ["c.png"]) None Fixture.three_state)
      = inr ("b.png", image) /\
    heap (state (resolveSourceImage (H := Fixture.collaborators) ICON
                   (["a.jpg"] ++ "b.png" :: ["c.png"]) None Fixture.three_state)) !! image
      = Some (mkSharp Fixture.png1024 None None) /\
    fs (state (resolveSourceImage (H := Fixture.collaborators) ICON
                 (["a.jpg"] ++ "b.png" :: ["c.png"]) None Fixture.three_state))
      = fs Fixture.three_state /\
    events (resolveSourceImage (H := Fixture.collaborators) ICON
              (["a.jpg"] ++ "b.png" :: ["c.png"]) None Fixture.three_state)
      = flat_map (probe_events (fs Fixture.three_state)) (["a.jpg"] ++ ["b.png"]) /\
    length (filter (fun e => is_readFile e = true)
              (events (resolveSourceImage (H := Fixture.collaborators) ICON
                         (["a.jpg"] ++ "b.png" :: ["c.png"]) None Fixture.three_state)))
      = 2%nat.
Proof.
  assert (Forall (fails (H := Fixture.collaborators) ICON (fs Fixture.three_state)) ["a.jpg"])
    as Hpre.
  { constructor; [|constructor]. eexists. vm_compute. reflexivity. }
  assert (probe (H := Fixture.collaborators) ICON (fs Fixture.three_state) "b.png"
          = inr Fixture.png1024) as Hb by (vm_compute; reflexivity).
  split; [exact Hpre|]. split; [exact Hb|].
  exact (resolve_returns_first_viable ICON ["a.jpg"] "b.png" ["c.png"] None
           Fixture.png1024 Fixture.three_state Hpre Hb).
Defined.

(** The collaborator calls of that run, spelled out: the third candidate is
    neither read nor decoded. *)
Example resolve_three_events :
  events (resolveSourceImage (H := Fixture.collaborators) ICON
            ["a.jpg"; "b.png"; "c.png"] None Fixture.three_state)
    = [EvReadFile "a.jpg"; EvMetadata Fixture.jpeg1024;
       EvReadFile "b.png"; EvMetadata Fixture.png1024].
Proof. vm_compute. reflexivity. Qed.

(** Of two failing candidates, one missing and one undersized, the error
    carries only the undersized one's failure: the missing file fails in
    [readFile], not in validation. *)
Example resolve_error_drops_read_failure :
  result (resolveSourceImage (H := Fixture.collaborators) ICON
            ["missing.png"; "small.png"] None Fixture.small_state)
    = inl (EResolveSourceImage
             "Could not find suitable source image. Looked at: missing.png, small.png"
             [mkValidationError (bad_size_message ICON (Some 1024) (Some 1023))
                (BadSize "small.png" ICON (Some 1024) (Some 1023) 1024 1024)]) /\
  length [mkValidationError (bad_size_message ICON (Some 1024) (Some 1023))
            (BadSize "small.png" ICON (Some 1024) (Some 1023) 1024 1024)]
    <> length ["missing.png"; "small.png"].
Proof. split; [vm_compute; reflexivity | cbn; lia]. Qed.

Lemma resolve_all_fail_error_witness :
  Forall (fails (H := Fixture.collaborators) ICON (fs Fixture.small_state))
    ["missing.png"; "small.png"] /\
  result (resolveSourceImage (H := Fixture.collaborators) ICON
            ["missing.png"; "small.png"] None Fixture.small_state)
    = inl (EResolveSourceImage
             ("Could not find suitable source image. Looked at: "
                +:+ join ", " ["missing.png"; "small.png"])
             (validation_failures (H := Fixture.collaborators) ICON (fs Fixture.small_state)
                ["missing.png"; "small.png"])).
Proof.
  assert (Forall (fails (H := Fixture.collaborators) ICON (fs Fixture.small_state))
            ["missing.png"; "small.png"]) as Hall.
  { repeat constructor; eexists; vm_compute; reflexivity. }
  split; [exact Hall|].
  exact (proj1 (resolve_all_fail_error ICON ["missing.png"; "small.png"] None
                  Fixture.small_state Hall)).
Defined.

Lemma resolve_all_fail_validation_witness :
  Forall (fails_validation (H := Fixture.collaborators) ICON (fs Fixture.failing_state))
    ["a.jpg"; "small.png"] /\
  exists carried,
    result (resolveSourceImage (H := Fixture.collaborators) ICON
              ["a.jpg"; "small.png"] None Fixture.failing_state)
      = inl (EResolveSourceImage
               ("Could not find suitable source image. Looked at: "
                  +:+ join ", " ["a.jpg"; "small.png"]) carried) /\
    length carried = length ["a.jpg"; "small.png"] /\
    map (fun v => source_of (details v)) carried = ["a.jpg"; "small.png"].
Proof.
  assert (Forall (fails_validation (H := Fixture.collaborators) ICON
                    (fs Fixture.failing_state)) ["a.jpg"; "small.png"]) as Hv.
  { repeat constructor; eexists; vm_compute; reflexivity. }
  split; [exact Hv|].
  destruct (resolve_all_fail_validation (H := Fixture.collaborators) ICON
              ["a.jpg"; "small.png"] None Fixture.failing_state Hv)
    as (carried & Hr & Hl & _ & Hs).
  exists carried. split; [exact Hr|]. split; [exact Hl | exact Hs].
Defined.

(** The error of that run, spelled out: a format failure for the JPEG, then
    a size failure for the undersized PNG. *)
Example resolve_two_validation_failures :
  result (resolveSourceImage (H := Fixture.collaborators) ICON
            ["a.jpg"; "small.png"] None Fixture.failing_state)
    = inl (EResolveSourceImage
             "Could not find suitable source image. Looked at: a.jpg, small.png"
             [mkValidationError (bad_format_message ICON (Some "jpeg"))
                (BadFormat "a.jpg" ICON (Some "jpeg") "png");
              mkValidationError (bad_size_message ICON (Some 1024) (Some 1023))
                (BadSize "small.png" ICON (Some 1024) (Some 1023) 1024 1024)]).
Proof. vm_compute. reflexivity. Qed.


(** The same candidates without the viable ones: the warnings are written. *)
Example resolve_warnings_on_failure :
  stream_writes (Stream 2)
    (events (resolveSourceImage (H := Fixture.collaborators) ICON
               ["a.jpg"; "missing.png"] (Some (Stream 2)) Fixture.three_state))
  = [ "WARN: Error with source file a.jpg: ValidationError: "
        +:+ bad_format_message ICON (Some "jpeg") +:+ newline;
      "WARN: Error with source file missing.png: Error: ENOENT: no such file or directory, open 'missing.png'"
        +:+ newline ].
Proof. vm_compute. reflexivity. Qed.

(** *** The generator on a concrete pipeline *)

Lemma generateImage_single_write_witness :
  (0 < length (heap Fixture.icon_state))%nat /\
  events (generateImage (H := Fixture.collaborators) (mkImageSchema 36 36) 0%nat
            "out/icon.png" (Some 80) Fixture.icon_state)
    = [EvToBuffer (mkSharp Fixture.png1024 (Some (36, 36)) (Some 80));
       EvWriteFile "out/icon.png" (Fixture.header Byte.x01 36 36 ++ [Fixture.byte_of 80])] /\
  file_writes (events (generateImage (H := Fixture.collaborators) (mkImageSchema 36 36)
                         0%nat "out/icon.png" (Some 80) Fixture.icon_state))
    = [("out/icon.png", Fixture.header Byte.x01 36 36 ++ [Fixture.byte_of 80])].
Proof.
  assert (0 < length (heap Fixture.icon_state))%nat as Hlive by (cbn; lia).
  split; [exact Hlive|].
  pose proof (generateImage_single_write (H := Fixture.collaborators)
                (mkImageSchema 36 36) 0%nat "out/icon.png" (Some 80)
                Fixture.icon_state Hlive) as W.
  cbv zeta in W.
  change (codec_toBuffer (transformed (mkImageSchema 36 36) (Some 80)
                            (heap Fixture.icon_state !!! 0%nat)))
    with (@inr string Buffer (Fixture.header Byte.x01 36 36 ++ [Fixture.byte_of 80])) in W.
  cbv iota in W. destruct W as (We & Ww & _).
  split; [exact We | exact Ww].
Defined.

(** The pipeline object is updated in place and keeps what an earlier call
    set: after a call with options, a call without options on the same
    object still encodes with them, unlike a call on a fresh pipeline. *)
Example generateImage_keeps_options :
  file_writes
    (events (generateImage (H := Fixture.collaborators) (mkImageSchema 36 36) 0%nat
               "b.png" None
               (state (generateImage (H := Fixture.collaborators) (mkImageSchema 48 48)
                         0%nat "a.png" (Some 80) Fixture.icon_state))))
    = [("b.png", Fixture.header Byte.x01 36 36 ++ [Fixture.byte_of 80])] /\
  file_writes
    (events (generateImage (H := Fixture.collaborators) (mkImageSchema 36 36) 0%nat
               "b.png" None Fixture.icon_state))
    = [("b.png", Fixture.header Byte.x01 36 36)].
Proof. split; vm_compute; reflexivity. Qed.

(** *** The runner on a concrete request *)

Lemma fixture_encoder_accepts (q : Sharp Z) :
  input q = Fixture.png1024 -> exists out, Fixture.encode q = inr out.
Proof.
  destruct q as [i r o]. cbn [input]. intros ->.
  unfold Fixture.encode. cbn [input resizeTo pngOptions].
  destruct r as [[w h]|]; eexists; reflexivity.
Qed.

Lemma run_android_icon_witness :
  fs Fixture.run_state !! "icon.png" = Some Fixture.png1024 /\
  @codec_metadata Z Fixture.collaborators Fixture.png1024
    = inr (mkMetadata (Some "png") (Some 1024) (Some 1024)) /\
  (forall q : Sharp Z, input q = Fixture.png1024 ->
     exists out, @codec_toBuffer Z Fixture.collaborators q = inr out) /\
  (forall path, @fs_writable Z Fixture.collaborators path = true) /\
  exists imgs,
    result (run (H := Fixture.collaborators) Fixture.outputDir Fixture.effectiveOptions ANDROID
              "resources" [(ICON, mkTypeOptions ["icon.png"] None)] (Some 80)
              Fixture.run_state) = inr imgs /\
    length imgs = 6%nat /\
    map (fun g => name (spec g)) imgs =
      ["drawable-ldpi-icon.png"; "drawable-mdpi-icon.png"; "drawable-hdpi-icon.png";
       "drawable-xhdpi-icon.png"; "drawable-xxhdpi-icon.png";
       "drawable-xxxhdpi-icon.png"].
Proof.
  assert (fs Fixture.run_state !! "icon.png" = Some Fixture.png1024) as Hfile
    by (vm_compute; reflexivity).
  assert (@codec_metadata Z Fixture.collaborators Fixture.png1024
          = inr (mkMetadata (Some "png") (Some 1024) (Some 1024))) as Hmeta
    by (vm_compute; reflexivity).
  assert (forall path, @fs_writable Z Fixture.collaborators path = true) as Hwr
    by reflexivity.
  split; [exact Hfile|]. split; [exact Hmeta|].
  split; [exact fixture_encoder_accepts|]. split; [exact Hwr|].
  destruct (run_android_icon (H := Fixture.collaborators) Fixture.outputDir
              Fixture.effectiveOptions "resources" "icon.png" None (Some 80)
              Fixture.png1024 Fixture.run_state Hfile Hmeta fixture_encoder_accepts Hwr)
    as (imgs & Hr & Hlen & _ & _ & Hnames & _).
  exists imgs. split; [exact Hr|]. split; [exact Hlen | exact Hnames].
Defined.

(** The files written by that run: six, at the catalog's names under the
    output directory, each holding the encoder's output at the entry's size. *)
Example run_android_icon_writes :
  file_writes (events (run (H := Fixture.collaborators) Fixture.outputDir Fixture.effectiveOptions
                         ANDROID "resources"
                         [(ICON, mkTypeOptions ["icon.png"] None)] (Some 80)
                         Fixture.run_state))
  = [ ("resources/android/icon/drawable-ldpi-icon.png",
       Fixture.header Byte.x01 36 36 ++ [Fixture.byte_of 80]);
      ("resources/android/icon/drawable-mdpi-icon.png",
       Fixture.header Byte.x01 48 48 ++ [Fixture.byte_of 80]);
      ("resources/android/icon/drawable-hdpi-icon.png",
       Fixture.header Byte.x01 72 72 ++ [Fixture.byte_of 80]);
      ("resources/android/icon/drawable-xhdpi-icon.png",
       Fixture.header Byte.x01 96 96 ++ [Fixture.byte_of 80]);
      ("resources/android/icon/drawable-xxhdpi-icon.png",
       Fixture.header Byte.x01 144 144 ++ [Fixture.byte_of 80]);
      ("resources/android/icon/drawable-xxxhdpi-icon.png",
       Fixture.header Byte.x01 192 192 ++ [Fixture.byte_of 80]) ].
Proof. vm_compute. reflexivity. Qed.

Lemma pipeline_deterministic_witness :
  (forall c,
     c ∈ all_sources [(ICON, mkTypeOptions ["icon.png"] (@None Z))] ->
     fs Fixture.run_state !! c = fs Fixture.stale_state !! c) /\
  result (run (H := Fixture.collaborators) Fixture.outputDir Fixture.effectiveOptions ANDROID
            "resources" [(ICON, mkTypeOptions ["icon.png"] None)] (Some 80)
            Fixture.run_state)
    = result (run (H := Fixture.collaborators) Fixture.outputDir Fixture.effectiveOptions ANDROID
                "resources" [(ICON, mkTypeOptions ["icon.png"] None)] (Some 80)
                Fixture.stale_state) /\
  events (run (H := Fixture.collaborators) Fixture.outputDir Fixture.effectiveOptions ANDROID
            "resources" [(ICON, mkTypeOptions ["icon.png"] None)] (Some 80)
            Fixture.run_state)
    = events (run (H := Fixture.collaborators) Fixture.outputDir Fixture.effectiveOptions ANDROID
                "resources" [(ICON, mkTypeOptions ["icon.png"] None)] (Some 80)
                Fixture.stale_state).
Proof.
  assert (forall c,
            c ∈ all_sources [(ICON, mkTypeOptions ["icon.png"] (@None Z))] ->
            fs Fixture.run_state !! c = fs Fixture.stale_state !! c) as Hag.
  { intros c Hc. cbn in Hc. apply list_elem_of_singleton in Hc as ->.
    vm_compute. reflexivity. }
  split; [exact Hag|].
  destruct (pipeline_deterministic (H := Fixture.collaborators) Fixture.outputDir
              Fixture.effectiveOptions ANDROID "resources"
              [(ICON, mkTypeOptions ["icon.png"] None)] (Some 80)
              Fixture.run_state Fixture.stale_state Hag) as (R & E & _).
  split; [exact R | exact E].
Defined.

(** The stale output file is overwritten: after either run it holds the
    encoder's output for the entry. *)
Example run_overwrites_stale_output :
  fs (state (run (H := Fixture.collaborators) Fixture.outputDir Fixture.effectiveOptions ANDROID
               "resources" [(ICON, mkTypeOptions ["icon.png"] None)] (Some 80)
               Fixture.stale_state))
    !! "resources/android/icon/drawable-ldpi-icon.png"
  = Some (Fixture.header Byte.x01 36 36 ++ [Fixture.byte_of 80]).
Proof. vm_compute. reflexivity. Qed.

(** * Further properties *)

(** ** Resource-type names *)

Lemma ResourceType_value_inj (t1 t2 : ResourceType) :
  ResourceType_value t1 = ResourceType_value t2 -> t1 = t2.
Proof. destruct t1, t2; cbn; congruence. Qed.

Lemma isSupportedResourceType_true (s : string) :
  isSupportedResourceType s = true <-> exists t, ResourceType_value t = s.
Proof.
  unfold isSupportedResourceType, RESOURCE_TYPES. cbn [existsb].
  rewrite !orb_true_iff, !String.eqb_eq. split.
  - intros [E|[E|E]]; [eauto | eauto | discriminate].
  - intros [[] E]; auto.
Qed.

(** X1. [isSupportedResourceType] accepts a string exactly when it is the
    value of a resource type, and then of one resource type only; the
    comparison is exact, so a differently cased name is not accepted. *)
Theorem isSupportedResourceType_iff (s : string) :
  (isSupportedResourceType s = true <-> exists t, ResourceType_value t = s) /\
  (forall t1 t2, ResourceType_value t1 = s -> ResourceType_value t2 = s -> t1 = t2) /\
  (forall t, isSupportedResourceType (ResourceType_value t) = true) /\
  isSupportedResourceType "Icon" = false /\
  isSupportedResourceType EmptyString = false.
Proof.
  split; [apply isSupportedResourceType_true|]. split.
  - intros t1 t2 E1 E2. apply ResourceType_value_inj. congruence.
  - split; [intros []; reflexivity|]. split; reflexivity.
Qed.

Lemma validateResourceTypes_loop_ok (types : list string) : forall acc r,
  validateResourceTypes_loop types acc = inr r <->
  Forall (fun s => isSupportedResourceType s = true) types /\ r = acc ++ types.
Proof.
  induction types as [|s rest IH]; intros acc r; cbn [validateResourceTypes_loop].
  - rewrite app_nil_r. split.
    + intros [= <-]. split; [constructor | reflexivity].
    + intros [_ ->]. reflexivity.
  - destruct (isSupportedResourceType s) eqn:E; cbn [negb].
    + rewrite IH, <- app_assoc. cbn [app]. split.
      * intros [Hall ->]. split; [constructor; assumption | reflexivity].
      * intros [Hall ->]. apply Forall_cons in Hall as [_ Hall]. auto.
    + split; [discriminate|].
      intros [Hall _]. apply Forall_cons in Hall as [Hs _]. congruence.
Qed.

Lemma validateResourceTypes_loop_find (types : list string) : forall acc,
  validateResourceTypes_loop types acc =
    match List.find (fun s => negb (isSupportedResourceType s)) types with
    | Some bad => inl (EOther ("Unsupported resource type: " +:+ bad))
    | None => inr (acc ++ types)
    end.
Proof.
  induction types as [|s rest IH]; intros acc; cbn [validateResourceTypes_loop List.find].
  - now rewrite app_nil_r.
  - destruct (negb (isSupportedResourceType s)); [reflexivity|].
    rewrite IH, <- app_assoc. reflexivity.
Qed.

(** X2. [validateResourceTypes] returns exactly when every name is a
    supported resource type, and what it returns is its argument: same
    names, same order, repetitions kept; validating its result again gives
    the same list. *)
Theorem validateResourceTypes_ok_iff (types r : list string) :
  (validateResourceTypes types = inr r <->
   Forall (fun s => isSupportedResourceType s = true) types /\ r = types) /\
  (validateResourceTypes types = inr r -> validateResourceTypes r = inr r) /\
  validateResourceTypes [] = inr [].
Proof.
  unfold validateResourceTypes. split; [apply validateResourceTypes_loop_ok|].
  split; [|reflexivity].
  intros Hr. apply validateResourceTypes_loop_ok in Hr as [Hall ->].
  apply validateResourceTypes_loop_ok. auto.
Qed.

(** X3. When some name is not a supported resource type,
    [validateResourceTypes] throws an error whose message names the first
    such name of the list, whatever follows it; otherwise it returns the
    list. *)
Theorem validateResourceTypes_first_unsupported (types : list string) :
  validateResourceTypes types =
    match List.find (fun s => negb (isSupportedResourceType s)) types with
    | Some bad => inl (EOther ("Unsupported resource type: " +:+ bad))
    | None => inr types
    end.
Proof. apply validateResourceTypes_loop_find. Qed.

Example validateResourceTypes_examples :
  validateResourceTypes ["splash"; "icon"; "splash"] = inr ["splash"; "icon"; "splash"] /\
  validateResourceTypes ["icon"; "banner"; "logo"; "splash"]
    = inl (EOther "Unsupported resource type: banner").
Proof. split; reflexivity. Qed.

(** ** The catalog *)

Lemma catalog_within_required (p : Platform) (t : ResourceType) :
  Forall (fun i => 0 < img_width i <= requiredWidth t /\
                   0 < img_height i <= requiredHeight t)
         (images (RESOURCES p t)).
Proof.
  destruct p, t; cbn [RESOURCES images ANDROID_ICON ANDROID_SPLASH IOS_ICON IOS_SPLASH];
    repeat (constructor; [cbn; lia|]); constructor.
Qed.

(** X4. Within each platform and resource type the output file names of the
    catalog are pairwise distinct, so no generated image of a type takes the
    place of another in the type's output directory. *)
Theorem catalog_names_distinct (p : Platform) (t : ResourceType) :
  NoDup (map name (images (RESOURCES p t))).
Proof.
  destruct p, t; apply (bool_decide_unpack _); vm_compute; exact I.
Qed.

(** X5. A source that a type's validator accepts is at least as wide and as
    high as every image the catalog asks for under that type, on either
    platform, and every such image has positive dimensions: generation only
    ever scales an accepted source down or keeps its size. *)
Theorem accepted_source_covers_catalog (t : ResourceType) (source : string)
    (f : option string) (w h : Z) (p : Platform) (i : ResourcesImageConfig) :
  check t source (mkMetadata f (Some w) (Some h)) = inr tt ->
  i ∈ images (RESOURCES p t) ->
  0 < img_width i <= w /\ 0 < img_height i <= h.
Proof.
  intros Hc Hi. rewrite check_cases in Hc.
  destruct (format_differs f "png"); [discriminate|].
  destruct (falsy (Some w) || falsy (Some h) || lt_required (Some w) (requiredWidth t)
            || lt_required (Some h) (requiredHeight t)) eqn:E; [discriminate|].
  rewrite !orb_false_iff in E. destruct E as [[[_ _] Ew] Eh].
  cbn [lt_required] in Ew, Eh. apply Z.ltb_ge in Ew, Eh.
  pose proof (catalog_within_required p t) as Hall.
  rewrite Forall_forall in Hall. specialize (Hall i Hi). lia.
Qed.

Lemma accepted_source_covers_catalog_witness :
  check SPLASH "splash.png" (mkMetadata (Some "png") (Some 3000) (Some 2800)) = inr tt /\
  mkImage "Default@2x~ipad~anyany.png" 2732 2732 None None ∈ images (RESOURCES IOS SPLASH) /\
  0 < 2732 <= 3000 /\ 0 < 2732 <= 2800.
Proof.
  assert (check SPLASH "splash.png" (mkMetadata (Some "png") (Some 3000) (Some 2800))
          = inr tt) as Hc by reflexivity.
  assert (mkImage "Default@2x~ipad~anyany.png" 2732 2732 None None
            ∈ images (RESOURCES IOS SPLASH)) as Hi.
  { apply (list_elem_of_lookup_2 _ 14%nat). reflexivity. }
  split; [exact Hc|]. split; [exact Hi|].
  exact (accepted_source_covers_catalog SPLASH "splash.png" (Some "png") 3000 2800 IOS
           (mkImage "Default@2x~ipad~anyany.png" 2732 2732 None None) Hc Hi).
Defined.

(** X6. Every attribute that a catalog entry lists for its output node,
    other than [src], is a key that each image of the entry defines (the
    Android entries list the density and every Android image has one; the
    iOS entries list width and height); [src] comes first in every list, and
    the node is named after the resource type. *)
Theorem catalog_attributes_defined (p : Platform) (t : ResourceType) :
  Forall (fun i => Forall (fun k => k = SRC \/ has_key i k = true)
                     (nodeAttributes (RESOURCES p t)))
         (images (RESOURCES p t)) /\
  head (nodeAttributes (RESOURCES p t)) = Some SRC /\
  nodeName (RESOURCES p t) = ResourceType_value t.
Proof.
  split; [|split; destruct p, t; reflexivity].
  destruct p, t; cbn [RESOURCES images nodeAttributes ANDROID_ICON ANDROID_SPLASH
                      IOS_ICON IOS_SPLASH];
    repeat (constructor; [repeat (constructor; [first [now left | now right]|]);
                          constructor|]); constructor.
Qed.

(** X7. The orientation recorded for an image agrees with its dimensions:
    a landscape image is wider than high, a portrait image higher than
    wide, and an image without orientation is square; in particular every
    icon is square. *)
Theorem orientation_matches_dimensions (p : Platform) (t : ResourceType) :
  Forall (fun i => match orientation i with
                   | Some LANDSCAPE => img_height i < img_width i
                   | Some PORTRAIT => img_width i < img_height i
                   | None => img_width i = img_height i
                   end)
         (images (RESOURCES p t)) /\
  Forall (fun i => orientation i = None /\ img_width i = img_height i)
         (images (RESOURCES p ICON)).
Proof.
  split.
  - destruct p, t; cbn [RESOURCES images ANDROID_ICON ANDROID_SPLASH IOS_ICON IOS_SPLASH];
      repeat (constructor; [cbn; lia|]); constructor.
  - destruct p; cbn [RESOURCES images ANDROID_ICON IOS_ICON];
      repeat (constructor; [cbn; split; [reflexivity | lia]|]); constructor.
Qed.

(** X8. On Android every image carries a density, no two images of a type
    share one, an image's file name is [drawable-], the density's value and
    the type's suffix, and its orientation is the one the density qualifier
    stands for; the iOS images carry no density. *)
Theorem android_names_from_density (t : ResourceType) :
  Forall (fun i => exists d,
            density i = Some d /\
            name i = "drawable-" +:+ Density_value d +:+
                     match t with ICON => "-icon.png" | SPLASH => "-screen.png" end /\
            orientation i = density_orientation d)
         (images (RESOURCES ANDROID t)) /\
  NoDup (map density (images (RESOURCES ANDROID t))) /\
  Forall (fun i => density i = None) (images (RESOURCES IOS t)).
Proof.
  split; [|split].
  - destruct t; cbn [RESOURCES images ANDROID_ICON ANDROID_SPLASH];
      repeat (constructor; [eexists; cbn; repeat split; reflexivity|]); constructor.
  - destruct t; apply (bool_decide_unpack _); vm_compute; exact I.
  - destruct t; cbn [RESOURCES images IOS_ICON IOS_SPLASH];
      repeat (constructor; [reflexivity|]); constructor.
Qed.

(** X9. Every output file name of the catalog is a non-empty stem followed
    by [.png], the one format the validators require of a source. *)
Theorem catalog_names_png (p : Platform) (t : ResourceType) :
  Forall (fun i => exists stem, name i = stem +:+ ".png" /\ stem <> EmptyString)
         (images (RESOURCES p t)).
Proof.
  destruct p, t; cbn [RESOURCES images ANDROID_ICON ANDROID_SPLASH IOS_ICON IOS_SPLASH];
    repeat (constructor;
            [cbn [name];
             match goal with
             | |- exists _, ?n = _ /\ _ =>
                 exists (String.substring 0%nat (String.length n - 4)%nat n);
                 split; [reflexivity | discriminate]
             end|]);
    constructor.
Qed.

(** ** The validators, continued *)

Lemma check_accepts (t : ResourceType) (source : string) (md : Metadata) :
  check t source md = inr tt <->
  format md = Some "png" /\
  exists w h, width md = Some w /\ height md = Some h /\
              requiredWidth t <= w /\ requiredHeight t <= h.
Proof.
  destruct md as [f w h]. rewrite check_cases. cbn [format width height].
  destruct (format_differs f "png") eqn:Ef.
  - split; [discriminate|]. intros [Hf _].
    apply format_differs_false in Hf. congruence.
  - apply format_differs_false in Ef as ->.
    destruct w as [w|], h as [h|]; cbn [falsy lt_required orb].
    + pose proof (check_png_accepts t source w h) as Hp.
      rewrite check_cases in Hp. change (format_differs (Some "png") "png") with false in Hp.
      cbv iota in Hp. cbn [falsy lt_required] in Hp. rewrite Hp. split.
      * intros [? ?]. split; [reflexivity|]. exists w, h. auto.
      * intros (_ & w' & h' & [= <-] & [= <-] & ? & ?). auto.
    + rewrite !orb_true_r. split; [discriminate|].
      intros (_ & ? & ? & _ & ? & _). discriminate.
    + split; [discriminate|]. intros (_ & ? & ? & ? & _). discriminate.
    + split; [discriminate|]. intros (_ & ? & ? & ? & _). discriminate.
Qed.

(** X10. A validator accepts a source exactly when its format is png, its
    width and height are both present, and they reach the required minimum
    of the resource type; the source path plays no part in the verdict. *)
Theorem validator_accepts_iff (t : ResourceType) (source source' : string)
    (md : Metadata) :
  (check t source md = inr tt <->
   format md = Some "png" /\
   exists w h, width md = Some w /\ height md = Some h /\
               requiredWidth t <= w /\ requiredHeight t <= h) /\
  (check t source md = inr tt <-> check t source' md = inr tt).
Proof.
  split; [apply check_accepts|]. rewrite !check_accepts. reflexivity.
Qed.

(** X11. A source good enough for a splash screen is good enough for an
    icon: whatever the splash validator accepts, the icon validator
    accepts. *)
Theorem splash_accepted_is_icon_accepted (source source' : string) (md : Metadata) :
  check SPLASH source md = inr tt -> check ICON source' md = inr tt.
Proof.
  rewrite !check_accepts. intros (Hf & w & h & Hw & Hh & Lw & Lh).
  split; [exact Hf|]. exists w, h. cbn [requiredWidth requiredHeight] in *.
  repeat split; try assumption; lia.
Qed.

Lemma splash_accepted_is_icon_accepted_witness :
  check SPLASH "splash.png" (mkMetadata (Some "png") (Some 2732) (Some 2732)) = inr tt /\
  check ICON "icon.png" (mkMetadata (Some "png") (Some 2732) (Some 2732)) = inr tt.
Proof.
  assert (check SPLASH "splash.png" (mkMetadata (Some "png") (Some 2732) (Some 2732))
          = inr tt) as Hs by reflexivity.
  split; [exact Hs|].
  exact (splash_accepted_is_icon_accepted "splash.png" "icon.png" _ Hs).
Defined.

(** X12. Whatever a validator raises on decoded metadata is a
    [ValidationError] that names the source path and the resource type it
    was called for.  A format failure records the observed format and the
    required [png], and is raised only when they differ; a size failure
    records the observed width and height and the required minimum of the
    type, and is raised only for a PNG. *)
Theorem validator_failure_details (t : ResourceType) (source : string) (md : Metadata) :
  match check t source md with
  | inr _ => True
  | inl e =>
      exists v, e = EValidation v /\
        source_of (details v) = source /\
        type_of (details v) = t /\
        match details v with
        | BadFormat _ _ f required =>
            f = format md /\ required = "png" /\ f <> Some "png"
        | BadSize _ _ w h rw rh =>
            w = width md /\ h = height md /\
            rw = requiredWidth t /\ rh = requiredHeight t /\
            format md = Some "png"
        end
  end.
Proof.
  destruct md as [f w h]. rewrite check_cases. cbn [format width height].
  destruct (format_differs f "png") eqn:Ef.
  - eexists. split; [reflexivity|]. cbn. repeat split.
    intros Hf. apply format_differs_false in Hf. congruence.
  - apply format_differs_false in Ef.
    destruct (falsy w || falsy h || lt_required w _ || lt_required h _); [|exact I].
    eexists. split; [reflexivity|]. cbn. repeat split; first [reflexivity | exact Ef].
Qed.


(** ** The source resolver, continued *)

Section ResolverMore.

Context {PngOptions : Type} {H : Collaborators PngOptions}.

Local Abbreviation State := (State PngOptions).
Local Abbreviation M := (M PngOptions).
Local Abbreviation Event := (Event PngOptions).


Lemma file_writes_app (l1 l2 : list Event) :
  file_writes (l1 ++ l2) = file_writes l1 ++ file_writes l2.
Proof. unfold file_writes. apply omap_app. Qed.

Lemma read_paths_app (l1 l2 : list Event) :
  read_paths (l1 ++ l2) = read_paths l1 ++ read_paths l2.
Proof. unfold read_paths. apply omap_app. Qed.

Lemma non_stream_app (l1 l2 : list Event) :
  non_stream (l1 ++ l2) = non_stream l1 ++ non_stream l2.
Proof. unfold non_stream. apply filter_app. Qed.

Lemma probe_events_shape files (sources : list string) :
  file_writes (flat_map (probe_events (PngOptions := PngOptions) files) sources) = [] /\
  read_paths (flat_map (probe_events (PngOptions := PngOptions) files) sources) = sources /\
  non_stream (flat_map (probe_events (PngOptions := PngOptions) files) sources)
    = flat_map (probe_events files) sources.
Proof.
  induction sources as [|c rest (IH1 & IH2 & IH3)]; [repeat split|].
  cbn [flat_map]. rewrite file_writes_app, read_paths_app, non_stream_app, IH1, IH2, IH3.
  unfold probe_events. destruct (files !! c); repeat split.
Qed.

Lemma stream_events_shape (s : WritableStream) (lines : list string) :
  file_writes (map (EvStreamWrite (PngOptions := PngOptions) s) lines) = [] /\
  read_paths (map (EvStreamWrite (PngOptions := PngOptions) s) lines) = [] /\
  non_stream (map (EvStreamWrite (PngOptions := PngOptions) s) lines) = [].
Proof.
  induction lines as [|l rest (IH1 & IH2 & IH3)]; [repeat split|].
  cbn [map]. repeat split; [exact IH1 | exact IH2 |].
  unfold non_stream. rewrite filter_cons_False; [exact IH3|]. cbn. discriminate.
Qed.

(** *** The store only grows *)

Lemma allocates_only_ret {A} (a : A) : allocates_only (mret a : M A).
Proof. intros st. reflexivity. Qed.

Lemma allocates_only_throw {A} (e : Exn) : allocates_only (throw (A := A) e : M A).
Proof. intros st. reflexivity. Qed.

Lemma allocates_only_bind {A B} (m : M A) (f : A -> M B) :
  allocates_only m -> (forall a, allocates_only (f a)) -> allocates_only (m ≫= f).
Proof.
  intros Hm Hf st. rewrite bind_unfold.
  destruct (result (m st)) as [e|a]; cbn [state]; [apply Hm|].
  etransitivity; [apply Hm | apply Hf].
Qed.

Lemma allocates_only_try_catch {A} (body : M A) (handler : Exn -> M A) :
  allocates_only body -> (forall e, allocates_only (handler e)) ->
  allocates_only (try_catch body handler).
Proof.
  intros Hm Hh st. rewrite try_catch_unfold.
  destruct (result (body st)) as [e|a]; cbn [state]; [|apply Hm].
  etransitivity; [apply Hm | apply Hh].
Qed.

Lemma allocates_only_try_source type source : allocates_only (try_source type source).
Proof.
  unfold try_source, RESOURCE_VALIDATORS.
  apply allocates_only_bind; [intros st; reflexivity|]. intros data.
  apply allocates_only_bind; [intros st; cbn; now apply prefix_app_r|]. intros image.
  apply allocates_only_bind; [|intros; apply allocates_only_ret].
  apply allocates_only_bind; [intros st; reflexivity|].
  intros md. destruct (check type source md);
    [apply allocates_only_throw | apply allocates_only_ret].
Qed.

Lemma allocates_only_resolve_loop type sources : forall errors,
  allocates_only (resolve_loop type sources errors).
Proof.
  induction sources as [|c rest IH]; intros errors; cbn [resolve_loop].
  - apply allocates_only_ret.
  - apply allocates_only_try_catch; [|intros; apply IH].
    apply allocates_only_bind; [apply allocates_only_try_source|].
    intros; apply allocates_only_ret.
Qed.

Lemma allocates_only_write_warnings s errors : allocates_only (write_warnings s errors).
Proof.
  induction errors as [|[c e] rest IH]; cbn [write_warnings].
  - apply allocates_only_ret.
  - apply allocates_only_bind; [intros st; reflexivity | intros; apply IH].
Qed.

Lemma allocates_only_resolveSourceImage type sources errstream :
  allocates_only (resolveSourceImage type sources errstream).
Proof.
  unfold resolveSourceImage.
  apply allocates_only_bind; [apply allocates_only_resolve_loop|]. intros [found|errors].
  - apply allocates_only_ret.
  - apply allocates_only_bind; [|intros; apply allocates_only_throw].
    destruct errstream; [apply allocates_only_write_warnings | apply allocates_only_ret].
Qed.

(** X14. [resolveSourceImage] leaves everything it finds as it is: whatever
    the candidates and whether it returns or throws, no file is changed, no
    [writeFile] call is made, and every pipeline object that existed before
    the call is still there in the same state; the call only adds pipeline
    objects of its own. *)
Theorem resolver_frame type sources errstream (st : State) :
  let o := resolveSourceImage type sources errstream st in
  fs (state o) = fs st /\
  file_writes (events o) = [] /\
  heap st `prefix_of` heap (state o) /\
  (forall r p, heap st !! r = Some p -> heap (state o) !! r = Some p).
Proof.
  cbv zeta.
  pose proof (allocates_only_resolveSourceImage type sources errstream st) as Hheap.
  assert (fs (state (resolveSourceImage type sources errstream st)) = fs st /\
          file_writes (events (resolveSourceImage type sources errstream st)) = [])
    as [Hfs Hw].
  { destruct (first_viable_split type (fs st) sources)
      as [Hall|(pre & c & post & data & -> & Hpre & Hc)].
    - destruct (resolveSourceImage_fail type sources errstream st Hall) as (_ & Hf & He).
      split; [exact Hf|]. rewrite He, file_writes_app.
      rewrite (proj1 (probe_events_shape _ _)).
      destruct errstream; [apply stream_events_shape | reflexivity].
    - destruct (resolveSourceImage_found type pre c post errstream data st Hpre Hc)
        as (image & _ & _ & Hf & He).
      split; [exact Hf|]. rewrite He. apply probe_events_shape. }
  repeat (split; [assumption|]).
  intros r p Hr. eapply prefix_lookup_Some; eassumption.
Qed.

Lemma resolve_loop_fresh type pre c post data :
  forall errors (s : State) image,
  Forall (fails type (fs s)) pre -> probe type (fs s) c = inr data ->
  result (resolve_loop type (pre ++ c :: post) errors s) = inr (inl (c, image)) ->
  (length (heap s) <= image)%nat.
Proof.
  induction pre as [|c' pre IH]; intros errors s image Hpre Hc.
  - cbn [app resolve_loop]. rewrite try_catch_unfold, bind_unfold.
    destruct (try_source_spec type c s) as (_ & _ & Hres). rewrite Hc in Hres.
    destruct Hres as [Hres _]. rewrite Hres. cbn. intros [= <-]. lia.
  - apply Forall_cons in Hpre as [[e He] Hpre].
    cbn [app resolve_loop]. rewrite try_catch_unfold, bind_unfold.
    destruct (try_source_spec type c' s) as (Hfs & _ & Hres). rewrite He in Hres.
    rewrite Hres. cbn [result state].
    intros Hr. eapply IH in Hr; [|rewrite Hfs; assumption..].
    pose proof (prefix_length _ _ (allocates_only_try_source type c' s)). lia.
Qed.

Lemma probe_accepted_file type files c data :
  probe type files c = inr data -> files !! c = Some data.
Proof.
  unfold probe. destruct (files !! c) as [d|]; [|discriminate].
  destruct (codec_metadata d); [discriminate|].
  destruct (check type c _); [discriminate|]. congruence.
Qed.

(** X15. What [resolveSourceImage] returns or throws tells what it found.
    The only thing it throws is a [ResolveSourceImageError], and it throws
    it exactly when every candidate failed; errors of reading, decoding or
    validating a candidate never escape on their own.  When it returns a
    path, that path is a candidate that was read, decoded and accepted,
    every candidate before it failed, and the pipeline returned is a new
    object over that file's bytes, with no resize or options set. *)
Theorem resolver_inversion type sources errstream (st : State) :
  let o := resolveSourceImage type sources errstream st in
  match result o with
  | inl e =>
      Forall (fails type (fs st)) sources /\
      e = EResolveSourceImage
            ("Could not find suitable source image. Looked at: " +:+ join ", " sources)
            (validation_failures type (fs st) sources)
  | inr (c, image) =>
      exists pre post data,
        sources = pre ++ c :: post /\
        Forall (fails type (fs st)) pre /\
        fs st !! c = Some data /\
        probe type (fs st) c = inr data /\
        heap (state o) !! image = Some (mkSharp data None None) /\
        heap st !! image = None
  end.
Proof.
  cbv zeta.
  destruct (first_viable_split type (fs st) sources)
    as [Hall|(pre & c & post & data & -> & Hpre & Hc)].
  - destruct (resolveSourceImage_fail type sources errstream st Hall) as (Hr & _ & _).
    rewrite Hr. auto.
  - unfold resolveSourceImage. rewrite bind_unfold.
    pose proof (resolve_loop_found type pre c post data [] st Hpre Hc) as Hl.
    cbv zeta in Hl. destruct Hl as (image & Hr & Hh & _ & _).
    pose proof (resolve_loop_fresh type pre c post data [] st image Hpre Hc Hr) as Hfresh.
    rewrite Hr. cbn [result state].
    exists pre, post, data. split; [reflexivity|]. split; [exact Hpre|].
    split; [eapply probe_accepted_file; exact Hc|].
    split; [exact Hc|]. split; [exact Hh|].
    apply lookup_ge_None. exact Hfresh.
Qed.

(** X16. [resolveSourceImage] reads the candidates in the order given, one
    [readFile] call each, with no call skipped and none repeated: when it
    throws it has read every candidate, a path listed twice being read
    twice; when it returns a candidate it has read the candidates up to
    that one and stopped.  It decodes only what it could read. *)
Theorem resolver_reads type sources errstream (st : State) :
  let o := resolveSourceImage type sources errstream st in
  match result o with
  | inl _ => read_paths (events o) = sources
  | inr (c, _) =>
      exists pre post, sources = pre ++ c :: post /\ read_paths (events o) = pre ++ [c]
  end /\
  read_paths (events o) `prefix_of` sources /\
  (length (filter (fun e => is_metadata e = true) (events o))
   <= length (read_paths (events o)))%nat.
Proof.
  cbv zeta.
  assert (forall l : list string,
            (length (filter (fun e => is_metadata e = true)
                       (flat_map (probe_events (PngOptions := PngOptions) (fs st)) l))
             <= length l)%nat) as Hdec.
  { induction l as [|c rest IH]; [reflexivity|].
    cbn [flat_map]. rewrite filter_app, length_app.
    unfold probe_events in *.
    destruct (fs st !! c); cbn; repeat case_decide; try discriminate; cbn; lia. }
  destruct (first_viable_split type (fs st) sources)
    as [Hall|(pre & c & post & data & -> & Hpre & Hc)].
  - destruct (resolveSourceImage_fail type sources errstream st Hall) as (Hr & _ & He).
    assert (read_paths (events (resolveSourceImage type sources errstream st)) = sources)
      as Hreads.
    { rewrite He, read_paths_app, (proj1 (proj2 (probe_events_shape _ _))).
      destruct errstream; [|apply app_nil_r].
      rewrite (proj1 (proj2 (stream_events_shape _ _))). apply app_nil_r. }
    rewrite Hr, Hreads. split; [reflexivity|]. split; [reflexivity|].
    rewrite He, filter_app, length_app.
    assert (length (filter (fun e => is_metadata e = true)
                      match errstream with
                      | Some s => map (EvStreamWrite (PngOptions := PngOptions) s)
                                    (warning_lines (failures type (fs st) sources))
                      | None => []
                      end) = 0%nat) as ->.
    { clear. destruct errstream as [w|]; [|reflexivity].
      generalize (warning_lines (failures type (fs st) sources)). intros lines.
      induction lines as [|l rest IH]; [reflexivity|].
      cbn [map]. rewrite filter_cons_False by (cbn; discriminate). exact IH. }
    specialize (Hdec sources). lia.
  - destruct (resolveSourceImage_found type pre c post errstream data st Hpre Hc)
      as (image & Hr & _ & _ & He).
    assert (read_paths (events (resolveSourceImage type (pre ++ c :: post) errstream st))
            = pre ++ [c]) as Hreads.
    { rewrite He. apply probe_events_shape. }
    rewrite Hr, Hreads. split; [eauto|]. split.
    + exists post. rewrite <- app_assoc. reflexivity.
    + rewrite He. apply Hdec.
Qed.

(** X17. The diagnostic stream is a side channel: with a stream supplied,
    [resolveSourceImage] returns or throws the same value, leaves the same
    state and makes the same file and codec calls as without one; only the
    writes to the stream are added. *)
Theorem resolver_errstream_side_channel type sources (s : WritableStream) (st : State) :
  let o := resolveSourceImage type sources (Some s) st in
  let o' := resolveSourceImage type sources None st in
  result o = result o' /\
  state o = state o' /\
  non_stream (events o) = events o' /\
  stream_writes s (events o') = [].
Proof.
  cbv zeta.
  assert (result (resolveSourceImage type sources (Some s) st)
            = result (resolveSourceImage type sources None st) /\
          state (resolveSourceImage type sources (Some s) st)
            = state (resolveSourceImage type sources None st)) as [Hr Hs].
  { unfold resolveSourceImage. rewrite !bind_unfold.
    destruct (result (resolve_loop type sources [] st)) as [e|[found|errors]];
      cbn [result state]; [auto | auto |].
    rewrite !bind_unfold.
    destruct (write_warnings_spec s errors (state (resolve_loop type sources [] st)))
      as (Wr & Ws & _).
    rewrite Wr, Ws. cbn. auto. }
  split; [exact Hr|]. split; [exact Hs|].
  destruct (first_viable_split type (fs st) sources)
    as [Hall|(pre & c & post & data & -> & Hpre & Hc)].
  - destruct (resolveSourceImage_fail type sources (Some s) st Hall) as (_ & _ & He).
    destruct (resolveSourceImage_fail type sources None st Hall) as (_ & _ & He').
    rewrite He, He', non_stream_app, app_nil_r.
    rewrite (proj2 (proj2 (probe_events_shape _ _))).
    rewrite (proj2 (proj2 (stream_events_shape _ _))), app_nil_r.
    split; [reflexivity | apply stream_writes_probe].
  - destruct (resolveSourceImage_found type pre c post (Some s) data st Hpre Hc)
      as (image & _ & _ & _ & He).
    destruct (resolveSourceImage_found type pre c post None data st Hpre Hc)
      as (image' & _ & _ & _ & He').
    rewrite He, He'. split; [apply probe_events_shape | apply stream_writes_probe].
Qed.

(** X18. With no candidate at all, [resolveSourceImage] throws at once: a
    [ResolveSourceImageError] with an empty failure list, without a single
    call to the file system, the codec or the stream, and with the state
    untouched. *)
Theorem resolver_empty type errstream (st : State) :
  resolveSourceImage type [] errstream st =
    mkOutcome
      (inl (EResolveSourceImage "Could not find suitable source image. Looked at: " []))
      st [].
Proof. destruct errstream; reflexivity. Qed.

Lemma resolve_loop_app_found type sources more found :
  forall errors (st : State),
  result (resolve_loop type sources errors st) = inr (inl found) ->
  resolve_loop type (sources ++ more) errors st = resolve_loop type sources errors st.
Proof.
  induction sources as [|c rest IH]; intros errors st.
  - cbn. discriminate.
  - cbn [app resolve_loop]. rewrite !try_catch_unfold.
    destruct (result ((try_source type c ≫= fun f => mret (inl f)) st)) as [e|a];
      [|reflexivity].
    cbn [result]. intros Hr. rewrite (IH _ _ Hr). reflexivity.
Qed.

(** X19. Candidates listed after the one that is accepted make no
    difference: if [resolveSourceImage] returns for a list, it behaves in
    every respect the same (result, state, calls) for that list followed by
    any further candidates. *)
Theorem resolver_append_stable type sources more errstream found (st : State) :
  result (resolveSourceImage type sources errstream st) = inr found ->
  resolveSourceImage type (sources ++ more) errstream st
    = resolveSourceImage type sources errstream st.
Proof.
  unfold resolveSourceImage. rewrite !bind_unfold.
  destruct (result (resolve_loop type sources [] st)) as [e|[f|errors]] eqn:Hl.
  - discriminate.
  - intros _. rewrite (resolve_loop_app_found type sources more f [] st Hl), Hl.
    reflexivity.
  - cbn [result]. rewrite bind_unfold.
    destruct errstream as [s|].
    + destruct (write_warnings_spec s errors (state (resolve_loop type sources [] st)))
        as (Wr & _). rewrite Wr. discriminate.
    + cbn. discriminate.
Qed.

End ResolverMore.

(** ** The image generator, continued *)

Section GeneratorMore.

Context {PngOptions : Type} {H : Collaborators PngOptions}.

Local Abbreviation State := (State PngOptions).
Local Abbreviation Sharp := (Sharp PngOptions).

(** The store after [generateImage], with or without a live object at
    [src]. *)
Lemma generateImage_heap image (src : SharpRef) dest options (st : State) :
  heap (state (generateImage image src dest options st))
    = alter (transformed image options) src (heap st).
Proof.
  unfold generateImage, transformImage. rewrite bind_unfold.
  cbn [resize result state events]. rewrite bind_unfold.
  destruct options as [o|].
  - rewrite bind_unfold. cbn [png result state events heap fs].
    rewrite list_alter_alter_eq. unfold toBuffer. cbn [result state events heap fs].
    destruct (codec_toBuffer _) as [msg|data]; cbn [result state];
      [|unfold writeFile; destruct (fs_writable dest); cbn [state heap]];
      apply list_alter_ext; reflexivity || (intros; reflexivity).
  - unfold toBuffer. cbn [result state events heap fs].
    destruct (codec_toBuffer _) as [msg|data]; cbn [result state];
      [|unfold writeFile; destruct (fs_writable dest); cbn [state heap]];
      apply list_alter_ext; reflexivity || (intros; reflexivity).
Qed.

(** The calls of [generateImage] and the files after it, with or without a
    live object at [src]. *)
Lemma generateImage_calls image (src : SharpRef) dest options (st : State) :
  let o := generateImage image src dest options st in
  exists q,
    events o = EvToBuffer q ::
               match codec_toBuffer q with
               | inr data => [EvWriteFile dest data]
               | inl _ => []
               end /\
    fs (state o) = match codec_toBuffer q with
                   | inr data => if fs_writable dest then <[dest := data]> (fs st) else fs st
                   | inl _ => fs st
                   end.
Proof.
  cbv zeta. unfold generateImage, transformImage. rewrite bind_unfold.
  cbn [resize result state events]. rewrite bind_unfold.
  destruct options as [o|].
  - rewrite bind_unfold. cbn [png result state events heap fs].
    unfold toBuffer. cbn [result state events heap fs].
    match goal with |- context [codec_toBuffer ?x] => exists x end.
    destruct (codec_toBuffer _) as [msg|data]; cbn; [auto|].
    unfold writeFile. destruct (fs_writable dest); cbn; auto.
  - unfold toBuffer. cbn [result state events heap fs].
    match goal with |- context [codec_toBuffer ?x] => exists x end.
    destruct (codec_toBuffer _) as [msg|data]; cbn; [auto|].
    unfold writeFile. destruct (fs_writable dest); cbn; auto.
Qed.

(** X20. [generateImage] touches one file and one object.  Whatever the
    outcome, every file other than the destination is as before, every
    pipeline object other than [src] is as before and none is added or
    removed, the bytes [src] was built over are unchanged, and neither
    [readFile] nor [metadata] is called: the source is not read or decoded
    again. *)
Theorem generateImage_frame image (src : SharpRef) dest options (st : State) :
  let o := generateImage image src dest options st in
  (forall path, path <> dest -> fs (state o) !! path = fs st !! path) /\
  (forall r, r <> src -> heap (state o) !! r = heap st !! r) /\
  length (heap (state o)) = length (heap st) /\
  input (heap (state o) !!! src) = input (heap st !!! src) /\
  read_paths (events o) = [] /\
  filter (fun e => is_metadata e = true) (events o) = [].
Proof.
  cbv zeta.
  pose proof (generateImage_heap image src dest options st) as Hh.
  destruct (generateImage_calls image src dest options st) as (q & He & Hf).
  split; [|split; [|split; [|split; [|split]]]].
  - intros path Hp. rewrite Hf.
    destruct (codec_toBuffer q); [reflexivity|].
    destruct (fs_writable dest); [|reflexivity]. now apply lookup_insert_ne.
  - intros r Hr. rewrite Hh. apply list_lookup_alter_ne. congruence.
  - rewrite Hh. apply length_alter.
  - rewrite Hh, list_lookup_total_alter. case_decide; reflexivity.
  - rewrite He. destruct (codec_toBuffer q); reflexivity.
  - rewrite He. destruct (codec_toBuffer q); reflexivity.
Qed.

(** X22. Resolving and then generating: when [resolveSourceImage] returns a
    candidate and its pipeline, [generateImage] on that pipeline encodes the
    bytes of the candidate's file, resized to the schema and with the
    options given, and writes the result to the destination; nothing of an
    earlier candidate takes part.  The candidate's own file is left as it
    was unless it is the destination. *)
Theorem resolve_then_generate type sources errstream image dest options
    (c : string) (r : SharpRef) (st : State) :
  result (resolveSourceImage type sources errstream st) = inr (c, r) ->
  let st' := state (resolveSourceImage type sources errstream st) in
  let g := generateImage image r dest options st' in
  exists data,
    fs st !! c = Some data /\
    let q := mkSharp data (Some (schema_width image, schema_height image)) options in
    events g = EvToBuffer q ::
               match codec_toBuffer q with
               | inr out => [EvWriteFile dest out]
               | inl _ => []
               end /\
    (forall out, codec_toBuffer q = inr out -> fs_writable dest = true ->
                 result g = inr tt /\ fs (state g) !! dest = Some out) /\
    (dest <> c -> fs (state g) !! c = Some data).
Proof.
  intros Hres. cbv zeta.
  destruct (first_viable_split type (fs st) sources)
    as [Hall|(pre & c' & post & data & -> & Hpre & Hc)].
  { destruct (resolveSourceImage_fail type sources errstream st Hall) as (Hr & _).
    rewrite Hr in Hres. discriminate. }
  destruct (resolveSourceImage_found type pre c' post errstream data st Hpre Hc)
    as (image0 & Hr & Hh & Hf & _).
  rewrite Hr in Hres. injection Hres as -> ->.
  assert (fs st !! c = Some data) as Hfile.
  { unfold probe in Hc. destruct (fs st !! c) as [d|]; [|discriminate].
    destruct (codec_metadata d); [discriminate|].
    destruct (check type c _); [discriminate|]. congruence. }
  exists data. split; [exact Hfile|].
  remember (state (resolveSourceImage type (pre ++ c :: post) errstream st)) as st' eqn:Est.
  assert (r < length (heap st'))%nat as Hlive by (eapply lookup_lt_Some; exact Hh).
  destruct (generateImage_spec image r dest options st' Hlive)
    as (_ & _ & He & Hg & Hfs).
  assert (heap st' !!! r = mkSharp data None None) as Ht
    by (apply list_lookup_total_correct; exact Hh).
  rewrite Ht in He. rewrite Ht in Hg. rewrite Ht in Hfs.
  assert (transformed image options (mkSharp data None None)
          = mkSharp data (Some (schema_width image, schema_height image)) options) as Eq
    by (destruct options; reflexivity).
  rewrite Eq in He. rewrite Eq in Hg. rewrite Eq in Hfs.
  split; [exact He|]. split.
  - intros out Hout Hw. rewrite Hout, Hw in Hg, Hfs. split; [exact Hg|].
    rewrite Hfs. apply lookup_insert_eq.
  - intros Hne. rewrite Hfs.
    destruct (codec_toBuffer _); [now rewrite Hf|].
    destruct (fs_writable dest); [|now rewrite Hf].
    rewrite lookup_insert_ne by exact Hne. now rewrite Hf.
Qed.

End GeneratorMore.

Lemma resolver_append_stable_witness :
  result (resolveSourceImage (H := Fixture.collaborators) ICON ["a.jpg"; "b.png"] None
            Fixture.three_state) = inr ("b.png", 1%nat) /\
  resolveSourceImage (H := Fixture.collaborators) ICON
      (["a.jpg"; "b.png"] ++ ["missing.png"; "c.png"]) None Fixture.three_state
    = resolveSourceImage (H := Fixture.collaborators) ICON ["a.jpg"; "b.png"] None
        Fixture.three_state.
Proof.
  assert (result (resolveSourceImage (H := Fixture.collaborators) ICON
                    ["a.jpg"; "b.png"] None Fixture.three_state)
          = inr ("b.png", 1%nat)) as Hr by (vm_compute; reflexivity).
  split; [exact Hr|].
  exact (resolver_append_stable ICON ["a.jpg"; "b.png"] ["missing.png"; "c.png"] None
           ("b.png", 1%nat) Fixture.three_state Hr).
Defined.

Lemma resolve_then_generate_witness :
  result (resolveSourceImage (H := Fixture.collaborators) ICON ["a.jpg"; "b.png"] None
            Fixture.three_state) = inr ("b.png", 1%nat) /\
  events (generateImage (H := Fixture.collaborators) (mkImageSchema 48 48) 1%nat
            "out/icon.png" (Some 80)
            (state (resolveSourceImage (H := Fixture.collaborators) ICON
                      ["a.jpg"; "b.png"] None Fixture.three_state)))
    = [EvToBuffer (mkSharp Fixture.png1024 (Some (48, 48)) (Some 80));
       EvWriteFile "out/icon.png" (Fixture.header Byte.x01 48 48 ++ [Fixture.byte_of 80])].
Proof.
  assert (result (resolveSourceImage (H := Fixture.collaborators) ICON
                    ["a.jpg"; "b.png"] None Fixture.three_state)
          = inr ("b.png", 1%nat)) as Hr by (vm_compute; reflexivity).
  split; [exact Hr|].
  destruct (resolve_then_generate (H := Fixture.collaborators) ICON ["a.jpg"; "b.png"]
              None (mkImageSchema 48 48) "out/icon.png" (Some 80) "b.png" 1%nat
              Fixture.three_state Hr) as (data & Hfile & He & _).
  assert (data = Fixture.png1024) as ->.
  { assert (fs Fixture.three_state !! "b.png" = Some Fixture.png1024) as Hb
      by (vm_compute; reflexivity).
    congruence. }
  exact He.
Defined.
